(** * A shallow embedding of parts of haddock3

    - [Flexref]: [generate_flexref] and [HaddockModule.run] of
      [haddock/modules/refinement/flexref/__init__.py];
    - [Mpi]: the MPI scheduler ([MPIScheduler._pickle_tasks]) and the MPI
      worker entry point ([cli_mpi.main]) exercised by
      [integration_tests/test_mpi.py];
    - [Yaml2Cfg]: [flat_yaml_cfg] of [haddock/gear/yaml2cfg.py];
    - [PyLib]: the Python built-ins the modules below use;
    - [Yaml2CfgMore]: [yaml2cfg_text], [_yaml2cfg_text],
      [read_from_yaml_config] and [find_incompatible_parameters] of
      [haddock/gear/yaml2cfg.py];
    - [BuildDefaultsRst]: [HeadingController], [change_title], [do_text],
      [loop_params] and [build_rst] of [devtools/build_defaults_rst.py];
    - [RunHaddock]: the topology output name, the stage functions
      [run_it0], [run_it1], [run_itw] and the model selection of
      [haddock/run_haddock.py].

    Files live in a filesystem [FS]: a finite map from paths (lists of path
    components, as [pathlib.Path] joins them) to contents. *)

From Stdlib Require Import Ascii DecimalString DecimalNat ZArith.
From stdpp Require Import base gmap list strings sorting.

Open Scope string_scope.

(** ** Paths and the filesystem *)

(** A [pathlib.Path] as its list of components; [p / name] appends one. *)
Abbreviation path := (list string).

Definition path_join (p : path) (name : string) : path := app p [name].

(** [Path.name]: the last component. *)
Definition path_name (p : path) : string := default "" (last p).

(** The filesystem: path to file contents. [Path.exists] is [is_Some]. *)
Abbreviation FS := (gmap path string).

Definition path_exists (fs : FS) (p : path) : bool := bool_decide (is_Some (fs !! p)).

(** Python's [f"{n}"] for a non-negative int: its decimal digits. *)
Definition nat_str (n : nat) : string := NilEmpty.string_of_uint (Nat.to_uint n).

(** [repr] of a Python list of strings: [['a', 'b']]. *)
Definition py_repr_str_list (l : list string) : string :=
  "[" +:+ String.concat ", " (map (fun s => "'" +:+ s +:+ "'") l) +:+ "]".

(** [os.linesep] on POSIX, and the double-quote character. *)
Definition linesep : string := String (Ascii.ascii_of_nat 10) "".
Definition dquote : string := String (Ascii.ascii_of_nat 34) "".

(** [str(path)]: components joined by the separator. *)
Definition path_to_string (p : path) : string := String.concat "/" p.

(** ** The flexref module *)

Module Flexref.

(** [haddock.ontology.Format], the members the module distinguishes. *)
Inductive Format := PDB | PSF | TOPOLOGY.

#[global] Instance Format_eq_dec : EqDecision Format.
Proof. solve_decision. Defined.

(** [haddock.ontology.PSFFile]: a topology file. *)
Record PSFFile := mkPSFFile { psf_file_name : string; psf_path : path }.

(** [haddock.ontology.PDBFile]: [file_name] (a name or a [Path]), the
    directory [path] (here [fpath]), its [file_type] and [topology]. *)
Record PDBFile := mkPDBFile {
  file_name : path;
  fpath : path;
  file_type : Format;
  topology : list PSFFile
}.

(** [haddock.cns.engine.CNSJob(input_file, output_file, cns_folder=...)]. *)
Record CNSJob := mkCNSJob { input_file : path; output_file : path; cns_folder : path }.

(** [haddock.ontology.ModuleIO] after [add(input)] and [add(output, "o")]. *)
Record ModuleIO := mkModuleIO { io_input : list path; io_output : list PDBFile }.

(** The fields of a [HaddockModule] instance that [run] reads: [self.path],
    [self.previous_io.output], [self.recipe_str], [self.defaults] and
    [self.cns_folder_path]. *)
Record HaddockModule := mkHaddockModule {
  module_path : path;
  previous_output : list PDBFile;
  recipe_str : string;
  defaults : path;
  cns_folder_path : path
}.

(** [generate_default_header()] returns nine CNS header strings. *)
Record DefaultHeader := mkDefaultHeader {
  h_param : string; h_top : string; h_link : string;
  h_topology_protonation : string; h_trans_vec : string; h_tensor : string;
  h_scatter : string; h_axis : string; h_water_box : string
}.

(** The outcome of [run]: it returns after [io.save], or raises. *)
Inductive outcome :=
| Saved
| IndexError
| ModuleError (msg : string).

(** [f"flexref_{identifier}{ext}"] *)
Definition flexref_fname (identifier : nat) (ext : string) : string :=
  "flexref_" +:+ nat_str identifier +:+ ext.

(** [defaults.MODULE_IO_FILE] *)
Definition MODULE_IO_FILE : string := "io.json".

(** Collaborators of [run] whose code is elsewhere in haddock3: the CNS
    helpers of [haddock.cns.util], the CNS engine ([CNSEngine(jobs).run()],
    seen through its effect on the filesystem) and the JSON rendering of
    [ModuleIO.save]. The results below hold for every instance. *)
Class CNSEnv := {
  load_workflow_params : path -> string;
  generate_default_header : DefaultHeader;
  prepare_multiple_input : list path -> list path -> string;
  load_ambig : string -> string;
  cns_engine_run : list CNSJob -> FS -> FS;
  io_to_json : ModuleIO -> string
}.

Section Run.
Context {E : CNSEnv}.

(** [generate_flexref]: writes the [.inp] file and returns its path. *)
Definition generate_flexref (identifier : nat) (input_file : PDBFile) (step_path : path)
    (recipe_str : string) (defaults : path) (ambig : option string) (fs : FS) : path * FS :=
  let default_params := load_workflow_params defaults in
  let hdr := generate_default_header in
  let pdb := app (fpath input_file) (file_name input_file) in
  let psf_list := map (fun psf => path_join (psf_path psf) (psf_file_name psf))
                      (topology input_file) in
  let input_str := prepare_multiple_input [pdb] psf_list in
  let ambig_str := match ambig with
                   | Some a => if bool_decide (a = "") then "" else load_ambig a
                   | None => ""
                   end in
  let output_pdb_filename := path_join step_path (flexref_fname identifier ".pdb") in
  let output := linesep +:+ "! Output structure" +:+ linesep in
  let output := output +:+ ("eval ($output_pdb_filename=" +:+ " " +:+ dquote
                  +:+ path_to_string output_pdb_filename +:+ dquote +:+ ")" +:+ linesep) in
  let inp := default_params +:+ h_param hdr +:+ h_top hdr +:+ input_str +:+ output
             +:+ h_topology_protonation hdr +:+ ambig_str +:+ recipe_str in
  let inp_file := path_join step_path (flexref_fname identifier ".inp") in
  (inp_file, <[inp_file := inp]> fs).

(** [models_to_refine]: the PDB files of the previous step's output. *)
Definition models_to_refine (m : HaddockModule) : list PDBFile :=
  filter (fun p => file_type p = PDB) (previous_output m).

(** The job-building loop of [run] (lines 75-91), from index [idx]:
    the jobs, [refined_structure_list] and the filesystem. *)
Fixpoint prepare_jobs (m : HaddockModule) (ambig : option string) (idx : nat)
    (models : list PDBFile) (fs : FS) : list CNSJob * list path * FS :=
  match models with
  | [] => ([], [], fs)
  | model :: rest =>
      let '(inp_file, fs) := generate_flexref idx model (module_path m) (recipe_str m)
                                (defaults m) ambig fs in
      let out_file := path_join (module_path m) (flexref_fname idx ".out") in
      let structure_file := path_join (module_path m) (flexref_fname idx ".pdb") in
      let job := mkCNSJob inp_file out_file (cns_folder_path m) in
      let '(jobs, refined, fs) := prepare_jobs m ambig (S idx) rest fs in
      (job :: jobs, structure_file :: refined, fs)
  end.

(** The output check loop (lines 100-107): [expected] and [not_found]. *)
Fixpoint check_outputs (m : HaddockModule) (topologies : list PSFFile)
    (refined : list path) (fs : FS) : list PDBFile * list string :=
  match refined with
  | [] => ([], [])
  | model :: rest =>
      let nf := if path_exists fs model then [] else [path_name model] in
      let pdb := mkPDBFile model (module_path m) PDB topologies in
      let '(expected, not_found) := check_outputs m topologies rest fs in
      (pdb :: expected, app nf not_found)
  end.

(** Modelled from the spec: [BaseHaddockModule.finish_with_error], which is
    not in the sources given here. Following the comment of line 99 ("fail
    if not all expected files are found") and the spec's rule that the
    calling pipeline stage decides whether missing results block the stage,
    it raises: the module stops with the message, nothing more is written. *)
Definition finish_with_error (msg : string) (fs : FS) : outcome * FS :=
  (ModuleError msg, fs).

(** [io.save(self.path)]: writes [io.json] in the step directory. *)
Definition io_save (io : ModuleIO) (p : path) (fs : FS) : FS :=
  <[path_join p MODULE_IO_FILE := io_to_json io]> fs.

(** Lines 99-116: verification of the outputs after the engine run. *)
Definition verify_outputs (m : HaddockModule) (topologies : list PSFFile)
    (refined_structure_list : list path) (fs : FS) : outcome * FS :=
  let '(expected, not_found) := check_outputs m topologies refined_structure_list fs in
  match not_found with
  | _ :: _ => finish_with_error ("Several files were not generated:" +:+ " "
                                  +:+ py_repr_str_list not_found) fs
  | [] =>
      let io := mkModuleIO refined_structure_list expected in
      (Saved, io_save io (module_path m) fs)
  end.

(** [HaddockModule.run]. [engine.run()] is called for its effect on the
    filesystem; its return value is dropped. *)
Definition run (m : HaddockModule) (ambig : option string) (fs : FS) : outcome * FS :=
  match models_to_refine m with
  | [] => (IndexError, fs)
  | first_model :: _ =>
      let topologies := topology first_model in
      let '(jobs, refined_structure_list, fs) :=
        prepare_jobs m ambig 0 (models_to_refine m) fs in
      let fs := cns_engine_run jobs fs in
      verify_outputs m topologies refined_structure_list fs
  end.

(** The filesystem right after [engine.run()]. *)
Definition fs_after_engine (m : HaddockModule) (ambig : option string) (fs : FS) : FS :=
  let '(jobs, _, fs) := prepare_jobs m ambig 0 (models_to_refine m) fs in
  cns_engine_run jobs fs.

End Run.

End Flexref.

(** ** The MPI scheduler and worker *)

Module Mpi.

(** The tasks of [integration_tests/test_mpi.py]: the test's [Task], whose
    [run] touches [output_fname], and [haddock.libs.libsubprocess.CNSJob]. *)
Inductive Task :=
| TouchTask (output_fname : path)
| CNSJob (input_file : string) (output_file : path) (cns_exec : path).

#[global] Instance Task_eq_dec : EqDecision Task.
Proof. solve_decision. Defined.

(** The file a task declares as its output. *)
Definition task_output (t : Task) : path :=
  match t with
  | TouchTask p => p
  | CNSJob _ o _ => o
  end.

(** An external executable, seen through its effect on the filesystem when
    run with a given standard input. *)
Class Exec := { exec : path -> string -> FS -> FS }.

(** [Task.run] of the test: [Path.touch()] creates an empty file, and
    leaves an existing one as it is. Modelled from the spec for [CNSJob.run]
    (not in the sources given here): it runs the binary on its input script
    and its only effect is what the binary does to the filesystem. *)
Definition task_run `{Exec} (t : Task) (fs : FS) : FS :=
  match t with
  | TouchTask p => match fs !! p with Some _ => fs | None => <[p := ""]> fs end
  | CNSJob inp _ bin => exec bin inp fs
  end.

(** [haddock.libs.libmpi.MPIScheduler]: its tasks, core count and [cwd]. *)
Record MPIScheduler := mkMPIScheduler { tasks : list Task; ncores : nat; cwd : path }.

(** Modelled from the spec: the batch record written by
    [MPIScheduler._pickle_tasks] (its pickle encoding is not in the sources
    given here). The spec asks for a single serialized container holding the
    ordered task list; we use a prefix-free encoding: a protocol header, the
    tasks, and the STOP mark [.]. Strings are written character by
    character, each preceded by [1], and ended by [0]; lists likewise. *)
Fixpoint enc_str (s : string) : string :=
  match s with
  | EmptyString => "0"
  | String c r => String "1"%char (String c (enc_str r))
  end.

Fixpoint enc_path (p : path) : string :=
  match p with
  | [] => "0"
  | c :: r => "1" +:+ enc_str c +:+ enc_path r
  end.

Definition enc_task (t : Task) : string :=
  match t with
  | TouchTask p => "T" +:+ enc_path p
  | CNSJob i o b => "C" +:+ enc_str i +:+ enc_path o +:+ enc_path b
  end.

Fixpoint enc_tasks (ts : list Task) : string :=
  match ts with
  | [] => "."
  | t :: r => enc_task t +:+ enc_tasks r
  end.

Definition PROTO : string := String (Ascii.ascii_of_nat 128) (String (Ascii.ascii_of_nat 4) "").

(** [pickle.dumps(self.tasks)] *)
Definition pickle_dumps (ts : list Task) : string := PROTO +:+ enc_tasks ts.

Fixpoint dec_str (s : string) : option (string * string) :=
  match s with
  | String c r =>
      if Ascii.eqb c "0"%char then Some ("", r)
      else if Ascii.eqb c "1"%char then
        match r with
        | String c' r' =>
            match dec_str r' with
            | Some (x, rest) => Some (String c' x, rest)
            | None => None
            end
        | EmptyString => None
        end
      else None
  | EmptyString => None
  end.

Fixpoint dec_path (fuel : nat) (s : string) : option (path * string) :=
  match fuel with
  | O => None
  | S f =>
      match s with
      | String c r =>
          if Ascii.eqb c "0"%char then Some ([], r)
          else if Ascii.eqb c "1"%char then
            match dec_str r with
            | Some (x, r1) =>
                match dec_path f r1 with
                | Some (xs, r2) => Some (x :: xs, r2)
                | None => None
                end
            | None => None
            end
          else None
      | EmptyString => None
      end
  end.

Definition dec_path_all (s : string) : option (path * string) := dec_path (String.length s) s.

Fixpoint dec_tasks (fuel : nat) (s : string) : option (list Task) :=
  match fuel with
  | O => None
  | S f =>
      match s with
      | String c r =>
          if Ascii.eqb c "."%char then
            (if bool_decide (r = "") then Some [] else None)
          else if Ascii.eqb c "T"%char then
            match dec_path_all r with
            | Some (p, r1) =>
                match dec_tasks f r1 with
                | Some ts => Some (TouchTask p :: ts)
                | None => None
                end
            | None => None
            end
          else if Ascii.eqb c "C"%char then
            match dec_str r with
            | Some (i, r1) =>
                match dec_path_all r1 with
                | Some (o, r2) =>
                    match dec_path_all r2 with
                    | Some (b, r3) =>
                        match dec_tasks f r3 with
                        | Some ts => Some (CNSJob i o b :: ts)
                        | None => None
                        end
                    | None => None
                    end
                | None => None
                end
            | None => None
            end
          else None
      | EmptyString => None
      end
  end.

(** [pickle.load]: [None] is an unreadable or corrupt record. *)
Definition pickle_loads (s : string) : option (list Task) :=
  match s with
  | String c1 (String c2 r) =>
      if bool_decide (String c1 (String c2 "") = PROTO) then dec_tasks (String.length r) r
      else None
  | _ => None
  end.

(** [MPIScheduler._pickle_tasks]: the record goes to [cwd / "mpi.pkl"]. *)
Definition pickle_path (sched : MPIScheduler) : path := path_join (cwd sched) "mpi.pkl".

Definition _pickle_tasks (sched : MPIScheduler) (fs : FS) : FS :=
  <[pickle_path sched := pickle_dumps (tasks sched)]> fs.

(** Modelled from the spec: the slice of a rank ([cli_mpi] and
    [MPIScheduler] are not in the sources given here): "indices where
    [i mod world_size == rank]". *)
Definition worker_slice (rank world_size n : nat) : list nat :=
  filter (fun i => i mod world_size = rank) (seq 0 n).

(** Errors of the worker before any task runs. *)
Inductive worker_error := FileNotFoundError | SerializationError.

(** Modelled from the spec: [cli_mpi.main(pickled_tasks)]. The worker gets
    the record's path as its argument, rank and world size from the
    launcher's environment; it loads the record, runs its slice's tasks in
    order and exits with status 0. *)
Definition worker_main `{Exec} (rank world_size : nat) (pickled_tasks : path) (fs : FS)
    : worker_error + (nat * FS) :=
  match fs !! pickled_tasks with
  | None => inl FileNotFoundError
  | Some s =>
      match pickle_loads s with
      | None => inl SerializationError
      | Some ts =>
          let mine := omap (fun i => ts !! i) (worker_slice rank world_size (length ts)) in
          inr (0, foldl (fun fs t => task_run t fs) fs mine)
      end
  end.

End Mpi.

(** ** Flattening YAML default configurations *)

Module Yaml2Cfg.

(** A value loaded by [yaml.safe_load]: mappings (with string keys, in
    file order), strings, integers, booleans, lists and [None]. *)
#[local] Set Warnings "-register-all".
Inductive YVal :=
| YMap (items : list (string * YVal))
| YStr (s : string)
| YInt (n : nat)
| YBool (b : bool)
| YList (l : list YVal)
| YNone.

(** [dict.get]-style lookup of a key in a mapping's items. *)
Fixpoint assoc_lookup (k : string) (l : list (string * YVal)) : option YVal :=
  match l with
  | [] => None
  | (k', v) :: r => if bool_decide (k = k') then Some v else assoc_lookup k r
  end.

(** The three ways [values["default"]] can end. *)
Inductive getitem_result :=
| Found (v : YVal)
| KeyError
| TypeError.

(** [values[k]] for a string key: a mapping looks the key up; a string, a
    list, an int, a bool or [None] raises [TypeError]. *)
Definition getitem (values : YVal) (k : string) : getitem_result :=
  match values with
  | YMap l => match assoc_lookup k l with Some v => Found v | None => KeyError end
  | _ => TypeError
  end.

(** [k in values] for a mapping: [k] is one of its keys. *)
Definition contains (values : YVal) (k : string) : bool :=
  match values with
  | YMap l => bool_decide (is_Some (assoc_lookup k l))
  | _ => false
  end.

(** [new[k] = v] on a dict: replace in place, or append a new key. *)
Fixpoint dict_setitem (k : string) (v : YVal) (d : list (string * YVal)) : list (string * YVal) :=
  match d with
  | [] => [(k, v)]
  | (k', v') :: r => if bool_decide (k = k') then (k, v) :: r else (k', v') :: dict_setitem k v r
  end.

Inductive ConfigurationError := ConfigurationErrorMsg (msg : string).

Definition explevel_emsg (param : string) : string :=
  "`explevel` not defined for: '" +:+ param +:+ "'".

(** The [for param, values in cfg.items()] loop of [flat_yaml_cfg],
    building [new]; [rec] is the recursive call [flat_yaml_cfg(values)]. *)
Fixpoint flat_loop (rec : YVal -> ConfigurationError + list (string * YVal))
    (new : list (string * YVal)) (items : list (string * YVal))
    : ConfigurationError + list (string * YVal) :=
  match items with
  | [] => inr new
  | (param, values) :: rest =>
      match getitem values "default" with
      | Found new_value =>
          if contains values "explevel" then flat_loop rec (dict_setitem param new_value new) rest
          else inl (ConfigurationErrorMsg (explevel_emsg param))
      | KeyError =>
          match rec values with
          | inl e => inl e
          | inr new_value => flat_loop rec (dict_setitem param (YMap new_value) new) rest
          end
      | TypeError => flat_loop rec new rest
      end
  end.

(** [flat_yaml_cfg] on the mapping it is applied to (the recursive call is
    made on a mapping only: only mappings raise [KeyError]). *)
Fixpoint flat_yaml_cfg_val (cfg : YVal) : ConfigurationError + list (string * YVal) :=
  match cfg with
  | YMap items => flat_loop flat_yaml_cfg_val [] items
  | _ => inr []
  end.

Definition flat_yaml_cfg (cfg : list (string * YVal)) : ConfigurationError + list (string * YVal) :=
  flat_yaml_cfg_val (YMap cfg).

(** Claim C10 as amended, in its words: the entry the result holds for a
    parameter whose value is [values]. *)
Definition expected_entry (values : YVal) : option YVal :=
  match values with
  | YMap l =>
      match assoc_lookup "default" l with
      | Some d => Some d
      | None => match flat_yaml_cfg l with inr r => Some (YMap r) | inl _ => None end
      end
  | _ => None
  end.

(** Claim C10 in its words: some mapping the flattening visits has a
    ["default"] key and no ["explevel"] key. *)
Fixpoint bad_items (rec : YVal -> bool) (items : list (string * YVal)) : bool :=
  match items with
  | [] => false
  | (_, values) :: rest =>
      match values with
      | YMap l =>
          match assoc_lookup "default" l with
          | Some _ => negb (bool_decide (is_Some (assoc_lookup "explevel" l)))
          | None => rec values
          end
      | _ => false
      end || bad_items rec rest
  end.

Fixpoint default_without_explevel (v : YVal) : bool :=
  match v with
  | YMap items => bad_items default_without_explevel items
  | _ => false
  end.

Definition is_error {A B : Type} (x : A + B) : bool := match x with inl _ => true | inr _ => false end.

End Yaml2Cfg.

(** ** Concrete inputs *)

Module Examples.
Import Flexref.

Definition demo_header : DefaultHeader :=
  mkDefaultHeader "param" "top" "link" "prot" "trans" "tensor" "scatter" "axis" "water".

(** Collaborators whose engine writes [created] and nothing else. *)
Definition demo_env (created : list path) : CNSEnv := {|
  load_workflow_params := fun _ => "params";
  generate_default_header := demo_header;
  prepare_multiple_input := fun _ _ => "input";
  load_ambig := fun _ => "ambig";
  cns_engine_run := fun _ fs => foldr (fun p fs => <[p := "ATOM"]> fs) fs created;
  io_to_json := fun _ => "{}"
|}.

Definition dm1 : PDBFile := mkPDBFile ["m1.pdb"] ["step_0"] PDB [mkPSFFile "m1.psf" ["step_0"]].
Definition dm2 : PDBFile := mkPDBFile ["m2.pdb"] ["step_0"] PDB [mkPSFFile "m2.psf" ["step_0"]].

(** A flexref step fed with two models. *)
Definition demo_module : HaddockModule :=
  mkHaddockModule ["run"; "step_1"] [dm1; dm2] "recipe" ["flexref.toml"] ["cns"].

End Examples.

(** Concrete MPI inputs. *)
Module MpiExamples.
Import Mpi.

(** A binary that writes nothing (it fails before producing output). *)
Definition silent_exec : Exec := {| exec := fun _ _ fs => fs |}.

(** Two touch tasks, as in [test_run_cli_mpi_main_task]. *)
Definition touch_sched : MPIScheduler :=
  mkMPIScheduler [TouchTask ["tmp"; "a.out"]; TouchTask ["tmp"; "b.out"]] 1 ["tmp"; "work"].

(** One CNS job, as in [test_run_cli_mpi_main_cnsjob]. *)
Definition cns_sched : MPIScheduler :=
  mkMPIScheduler [CNSJob "stop" ["tmp"; "cns.out"] ["bin"; "cns"]] 1 ["tmp"; "work"].

End MpiExamples.

(** ** Python built-ins shared by the modules below *)

Module PyLib.
Import Yaml2Cfg.

(** The exceptions the code below can raise. *)
Inductive py_error :=
| PyKeyError
| PyTypeError
| PyIndexError
| PyAttributeError
| PyAssertionError (msg : string).

(** A computation that returns a value or raises. *)
#[global] Instance py_ret : MRet (sum py_error) := fun _ x => inr x.
#[global] Instance py_bind : MBind (sum py_error) :=
  fun _ _ f m => match m with inl e => inl e | inr x => f x end.
#[global] Instance py_fmap : FMap (sum py_error) :=
  fun _ _ f m => match m with inl e => inl e | inr x => inr (f x) end.

(** [str(v)] and [repr(v)] of a loaded YAML value: Python built-ins, taken
    as given (the results below hold for every instance). *)
Class PyFormat := { py_str : YVal -> string; py_repr : YVal -> string }.

(** [d[k]] on a mapping's items. *)
Definition getm (d : list (string * YVal)) (k : string) : py_error + YVal :=
  match assoc_lookup k d with Some v => inr v | None => inl PyKeyError end.

(** [s.startswith(p)] and [p in s] for strings. *)
Fixpoint str_startswith (s p : string) : bool :=
  match p, s with
  | EmptyString, _ => true
  | String _ _, EmptyString => false
  | String c p', String d s' => bool_decide (c = d) && str_startswith s' p'
  end.

Fixpoint str_contains (p s : string) : bool :=
  str_startswith s p ||
  match s with
  | EmptyString => false
  | String _ s' => str_contains p s'
  end.

(** [k in v] for a string [k]: a key of a mapping, a substring of a string,
    an element of a list (by [==]); an int, a bool or [None] is not
    iterable and raises [TypeError]. *)
Definition py_in (k : string) (v : YVal) : py_error + bool :=
  match v with
  | YMap l => inr (bool_decide (is_Some (assoc_lookup k l)))
  | YStr s => inr (str_contains k s)
  | YList xs => inr (existsb (fun x => match x with YStr s => bool_decide (s = k) | _ => false end) xs)
  | YInt _ | YBool _ | YNone => inl PyTypeError
  end.

(** [v == s] for a loaded value [v] and a string [s]. *)
Definition yval_eq_str (v : YVal) (s : string) : bool :=
  match v with YStr s' => bool_decide (s' = s) | _ => false end.

(** [s * n] for a string [s]. *)
Fixpoint str_repeat (s : string) (n : nat) : string :=
  match n with
  | 0 => ""
  | S n' => s +:+ str_repeat s n'
  end.

(** [sorted(items, key=lambda x: x[0])]: Python's sort is stable, which
    fixes its result; insertion from the right gives that result. *)
Fixpoint sort_insert {A : Type} (x : string * A) (l : list (string * A)) : list (string * A) :=
  match l with
  | [] => [x]
  | y :: r => if String.leb x.1 y.1 then x :: y :: r else y :: sort_insert x r
  end.

Definition sorted_by_key {A : Type} (l : list (string * A)) : list (string * A) :=
  foldr sort_insert [] l.

(** [s.split(c)] for a one-character separator. *)
Fixpoint py_split_go (c : ascii) (cur : string) (s : string) : list string :=
  match s with
  | EmptyString => [cur]
  | String d s' => if bool_decide (d = c) then cur :: py_split_go c "" s'
                   else py_split_go c (cur +:+ String d "") s'
  end.

Definition py_split (c : ascii) (s : string) : list string := py_split_go c "" s.

(** [l[i]] for a non-negative index. *)
Definition py_index {A : Type} (l : list A) (i : nat) : py_error + A :=
  match l !! i with Some x => inr x | None => inl PyIndexError end.

(** [l[:n]] for an int [n]: a negative stop counts from the end. *)
Definition py_slice_upto {A : Type} (l : list A) (n : Z) : list A :=
  if Z.ltb n 0 then take (Z.to_nat (Z.max 0 (Z.of_nat (length l) + n))) l
  else take (Z.to_nat n) l.

(** [str(n)] of an int. *)
Definition Z_str (z : Z) : string := NilEmpty.string_of_int (Z.to_int z).

End PyLib.

(** ** More of [haddock/gear/yaml2cfg.py] *)

Module Yaml2CfgMore.
Import Yaml2Cfg PyLib.

(** [config_expert_levels] and [_hidden_level], imported from [haddock]. *)
Class ExpertLevels := { config_expert_levels : list string; _hidden_level : string }.

Section Text.
Context {PF : PyFormat} {EL : ExpertLevels}.

(** [{el: i for i, el in enumerate(levels)}]: a repeated level keeps its
    last index. *)
Fixpoint enum_dict (i : nat) (l : list string) (d : gmap string nat) : gmap string nat :=
  match l with
  | [] => d
  | el :: r => enum_dict (S i) r (<[el := i]> d)
  end.

Definition exp_levels : gmap string nat :=
  enum_dict 0 (app config_expert_levels ["all"; _hidden_level]) ∅.

(** [exp_levels[v]] for a loaded value [v]: the keys are strings, so any
    other hashable value is missing; a list or a mapping is unhashable. *)
Definition level_index (v : YVal) : py_error + nat :=
  match v with
  | YStr s => match exp_levels !! s with Some i => inr i | None => inl PyKeyError end
  | YMap _ | YList _ => inl PyTypeError
  | _ => inl PyKeyError
  end.

Definition undesired (details : bool) : list string :=
  app ["default"; "explevel"; "type"] (if details then [] else ["long"]).

(** The comments of a parameter: [f"${k} {v}"] for each key not undesired
    and each value other than [""]. *)
Fixpoint param_comments (und : list string) (items : list (string * YVal)) : list string :=
  match items with
  | [] => []
  | (k, v) :: r =>
      if bool_decide (k ∈ und) then param_comments und r
      else if yval_eq_str v "" then param_comments und r
      else ("$" +:+ k +:+ " " +:+ py_str v) :: param_comments und r
  end.

(** The line of a parameter: booleans as [str(v).lower()], others by
    [repr]. *)
Definition param_line (param_name : string) (default_value : YVal) (comment : list string) : string :=
  match default_value with
  | YBool b => param_name +:+ " = " +:+ (if b then "true" else "false") +:+ "  # "
                 +:+ String.concat " / " comment
  | v => param_name +:+ " = " +:+ py_repr v +:+ "  # " +:+ String.concat " / " comment
  end.

(** The [for param_name, param in ymlcfg.items()] loop of [_yaml2cfg_text]
    (lines 102-158), building [params]; [rec] is the recursive call. *)
Fixpoint cfg_text_loop (rec : option string -> YVal -> py_error + string) (exp_level_idx : nat)
    (und : list string) (module : option string) (items : list (string * YVal))
    : py_error + list string :=
  match items with
  | [] => mret []
  | (param_name, param) :: rest =>
      match param with
      | YMap l =>
          match assoc_lookup "default" l with
          | None =>
              let curr_module := match module with
                                 | Some m => m +:+ "." +:+ param_name
                                 | None => param_name
                                 end in
              sub ← rec (Some curr_module) param;
              ps ← cfg_text_loop rec exp_level_idx und module rest;
              mret ("" :: ("[" +:+ curr_module +:+ "]") :: sub :: ps)
          | Some default_value =>
              lv ← getm l "explevel";
              i ← level_index lv;
              if Nat.ltb exp_level_idx i then cfg_text_loop rec exp_level_idx und module rest
              else
                let line := param_line param_name default_value (param_comments und l) in
                ty ← getm l "type";
                ps ← cfg_text_loop rec exp_level_idx und module rest;
                mret (line :: app (if yval_eq_str ty "list" then [linesep] else []) ps)
          end
      | _ => cfg_text_loop rec exp_level_idx und module rest
      end
  end.

(** [_yaml2cfg_text] on the value it is applied to. *)
Fixpoint _yaml2cfg_text_val (ymlcfg : YVal) (module : option string) (explevel : string)
    (details : bool) {struct ymlcfg} : py_error + string :=
  match exp_levels !! explevel with
  | None => inl PyKeyError
  | Some exp_level_idx =>
      match ymlcfg with
      | YMap items =>
          String.concat linesep <$>
            cfg_text_loop (fun m v => _yaml2cfg_text_val v m explevel details)
              exp_level_idx (undesired details) module items
      | _ => inl PyAttributeError
      end
  end.

Definition _yaml2cfg_text (ymlcfg : list (string * YVal)) (module : option string)
    (explevel : string) (details : bool) : py_error + string :=
  _yaml2cfg_text_val (YMap ymlcfg) module explevel details.

Definition yaml2cfg_text (ymlcfg : list (string * YVal)) (module : option string)
    (explevel : string) (details : bool) : py_error + string :=
  inner ← _yaml2cfg_text ymlcfg module explevel details;
  mret (String.concat linesep
          (app (match module with Some m => ["[" +:+ m +:+ "]"] | None => [] end) [inner])
        +:+ linesep).

End Text.

(** The loop of [find_incompatible_parameters] over the loaded config. *)
Fixpoint find_incompatible_loop (incompatible_parameters : list (string * YVal))
    (items : list (string * YVal)) : py_error + list (string * YVal) :=
  match items with
  | [] => mret incompatible_parameters
  | (node, values) :: rest =>
      match py_in "incompatible" values with
      | inl e => inl e
      | inr true =>
          match getitem values "incompatible" with
          | Found v => find_incompatible_loop (dict_setitem node v incompatible_parameters) rest
          | KeyError => inl PyKeyError
          | TypeError => inl PyTypeError
          end
      | inr false => find_incompatible_loop incompatible_parameters rest
      end
  end.

(** [find_incompatible_parameters], on the mapping [read_from_yaml] loaded. *)
Definition find_incompatible_parameters (config : list (string * YVal))
    : py_error + list (string * YVal) :=
  find_incompatible_loop [] config.

(** [d.update(other)]: [d[k] = v] for each item of [other], in order. *)
Definition dict_update (d other : list (string * YVal)) : list (string * YVal) :=
  foldl (fun d kv => dict_setitem kv.1 kv.2 d) d other.

(** [read_from_yaml_config], on the mapping [read_from_yaml] loaded. *)
Definition read_from_yaml_config (ycfg : list (string * YVal)) (default_only : bool)
    : ConfigurationError + list (string * YVal) :=
  if default_only then
    match flat_yaml_cfg ycfg with
    | inl e => inl e
    | inr flat => inr (dict_update [] flat)
    end
  else inr ycfg.

End Yaml2CfgMore.

(** ** [devtools/build_defaults_rst.py] *)

Module BuildDefaultsRst.
Import Yaml2Cfg PyLib.

(** [HeadingController]: the heading characters and its index [_idx]
    (the global [HEADING] is passed as that index). *)
Definition title_headings : list string := ["-"; "`"; "~"; "*"].

Definition heading_current (idx : nat) : py_error + string := py_index title_headings idx.
Definition heading_next (idx : nat) : py_error + string := py_index title_headings (idx + 1).

Section Rst.
Context {PF : PyFormat}.

(** [do_text]: all fields but ["group"] are read with [param[...]]. *)
Definition do_text (name : string) (param : list (string * YVal)) (level : string)
    : py_error + string :=
  d ← getm param "default";
  ty ← getm param "type";
  title ← getm param "title";
  short ← getm param "short";
  long ← getm param "long";
  let group := default (YStr "No group assigned") (assoc_lookup "group" param) in
  explevel ← getm param "explevel";
  mret (String.concat linesep
    [name; str_repeat level (String.length name); "";
     "| *default*: " +:+ py_repr d;
     "| *type*: " +:+ py_str ty;
     "| *title*: " +:+ py_str title;
     "| *short description*: " +:+ py_str short;
     "| *long description*: " +:+ py_str long;
     "| *group*: " +:+ py_str group;
     "| *explevel*: " +:+ py_str explevel;
     ""]).

(** The branches on [explevel == 'easy'], ['expert'], ['guru'], ['hidden']. *)
Inductive level_kind := LEasy | LExpert | LGuru | LHidden | LOther.

Definition level_of (explevel : YVal) : level_kind :=
  if yval_eq_str explevel "easy" then LEasy
  else if yval_eq_str explevel "expert" then LExpert
  else if yval_eq_str explevel "guru" then LGuru
  else if yval_eq_str explevel "hidden" then LHidden
  else LOther.

Definition unexpected_explevel_emsg (explevel : YVal) : string :=
  "explevel " +:+ py_repr explevel +:+ " is not expected".

(** [easy], [expert] and [guru]; [sublist] aliases one of them, so
    appending to it appends to that list. *)
Definition append_to (k : level_kind) (xs : list string)
    (acc : list string * list string * list string) : list string * list string * list string :=
  let '(easy, expert, guru) := acc in
  match k with
  | LEasy => (app easy xs, expert, guru)
  | LExpert => (easy, app expert xs, guru)
  | LGuru => (easy, expert, app guru xs)
  | _ => acc
  end.

(** The subparameters of a section (lines 431-438). *)
Fixpoint sub_texts (idx : nat) (name : string) (items : list (string * YVal))
    : py_error + list string :=
  match items with
  | [] => mret []
  | (name2, param2) :: rest =>
      match param2 with
      | YMap l2 =>
          lvl ← heading_next idx;
          text ← do_text (name +:+ "." +:+ name2) l2 lvl;
          texts ← sub_texts idx name rest;
          mret (text :: texts)
      | _ => sub_texts idx name rest
      end
  end.

(** The [for name, data in sorted_] loop of [loop_params], [HEADING] at
    [idx]. *)
Fixpoint params_loop (idx : nat) (items : list (string * YVal))
    (acc : list string * list string * list string)
    : py_error + (list string * list string * list string) :=
  match items with
  | [] => mret acc
  | (name, data) :: rest =>
      match data with
      | YMap l =>
          match assoc_lookup "default" l with
          | None =>
              explevel ← getm l "explevel";
              cur ← heading_current idx;
              let new_title := [name; str_repeat cur (String.length name); ""] in
              match level_of explevel with
              | LHidden => params_loop idx rest acc
              | LOther => inl (PyAssertionError (unexpected_explevel_emsg explevel))
              | k =>
                  title ← getm l "title";
                  short ← getm l "short";
                  long ← getm l "long";
                  group ← getm l "group";
                  let data_text := String.concat linesep
                    ["| *title*: " +:+ py_str title;
                     "| *short description*: " +:+ py_str short;
                     "| *long description*: " +:+ py_str long;
                     "| *group*: " +:+ py_str group;
                     "| *explevel*: " +:+ py_str explevel;
                     ""] in
                  subs ← sub_texts idx name (sorted_by_key l);
                  params_loop idx rest (append_to k (app new_title (data_text :: subs)) acc)
              end
          | Some _ =>
              explevel ← getm l "explevel";
              cur ← heading_current idx;
              text ← do_text name l cur;
              match level_of explevel with
              | LHidden => params_loop idx rest acc
              | LOther => inl (PyAssertionError (unexpected_explevel_emsg explevel))
              | k => params_loop idx rest (append_to k [text] acc)
              end
          end
      | _ => inl (PyAssertionError ("Unexpected parameter behaviour: " +:+ py_repr (YStr name)))
      end
  end.

(** [loop_params]. *)
Definition loop_params (idx : nat) (config : list (string * YVal))
    (easy expert guru : list string) : py_error + (list string * list string * list string) :=
  '(easy, expert, guru) ← params_loop idx (sorted_by_key config) (easy, expert, guru);
  mret (app easy [""], app expert [""], app guru [""]).

(** [build_rst], with [HEADING] at [idx] when it is called. *)
Definition build_rst (idx : nat) (module_params : list (string * YVal)) : py_error + string :=
  cur ← heading_current idx;
  let easy := ["Easy"; str_repeat cur 4; ""] in
  let expert := ["Expert"; str_repeat cur 6; ""] in
  let guru := ["Guru"; str_repeat cur 4; ""] in
  '(easy, expert, guru) ← loop_params (S idx) module_params easy expert guru;
  let doc := mjoin (filter (fun l : list string => 4 < length l) [easy; expert; guru]) in
  mret (linesep +:+ linesep +:+ String.concat linesep doc).

End Rst.

(** [open(f, 'r').readlines()]: text mode turns ["\r\n"] and ["\r"] into
    ["\n"], then the text is cut after each ["\n"]. *)
Fixpoint universal_newlines (s : string) : string :=
  match s with
  | EmptyString => EmptyString
  | String c s' =>
      if bool_decide (c = Ascii.ascii_of_nat 13) then
        match s' with
        | String d s'' => if bool_decide (d = Ascii.ascii_of_nat 10)
                          then String (Ascii.ascii_of_nat 10) (universal_newlines s'')
                          else String (Ascii.ascii_of_nat 10) (universal_newlines s')
        | EmptyString => String (Ascii.ascii_of_nat 10) EmptyString
        end
      else String c (universal_newlines s')
  end.

Fixpoint split_lines_go (cur : string) (s : string) : list string :=
  match s with
  | EmptyString => if bool_decide (cur = "") then [] else [cur]
  | String c s' => if bool_decide (c = Ascii.ascii_of_nat 10)
                   then (cur +:+ String c "") :: split_lines_go "" s'
                   else split_lines_go (cur +:+ String c "") s'
  end.

Definition readlines (content : string) : list string :=
  split_lines_go "" (universal_newlines content).

(** A byte whose code lies in [lo..hi]. *)
Definition byte_in (lo hi : nat) (c : ascii) : bool :=
  Nat.leb lo (Ascii.nat_of_ascii c) && Nat.leb (Ascii.nat_of_ascii c) hi.

(** Text mode decodes with the locale encoding, taken here as UTF-8 (as on
    POSIX, like [linesep]): strict decoding accepts exactly the well-formed
    UTF-8 byte sequences of the Unicode standard (no overlong forms, no
    surrogates, nothing above U+10FFFF), and raises [UnicodeDecodeError]
    on anything else. *)
Fixpoint utf8_valid (s : string) : bool :=
  match s with
  | EmptyString => true
  | String c r =>
      let b := Ascii.nat_of_ascii c in
      if Nat.ltb b 128 then utf8_valid r
      else if byte_in 194 223 c then
        match r with
        | String c1 r1 => byte_in 128 191 c1 && utf8_valid r1
        | EmptyString => false
        end
      else if byte_in 224 239 c then
        match r with
        | String c1 (String c2 r2) =>
            byte_in (if Nat.eqb b 224 then 160 else 128) (if Nat.eqb b 237 then 159 else 191) c1
            && byte_in 128 191 c2 && utf8_valid r2
        | _ => false
        end
      else if byte_in 240 244 c then
        match r with
        | String c1 (String c2 (String c3 r3)) =>
            byte_in (if Nat.eqb b 240 then 144 else 128) (if Nat.eqb b 244 then 143 else 191) c1
            && byte_in 128 191 c2 && byte_in 128 191 c3 && utf8_valid r3
        | _ => false
        end
      else false
  end.

(** [change_title]: rewrites the file with its first line replaced by
    [title + os.linesep]; a missing file raises when it is opened, and a
    file that does not decode raises in [readlines], before the file is
    opened for writing. Well-formed UTF-8 decodes and encodes back to the
    same bytes, and ["\r"] and ["\n"] are single bytes in it, so the
    newline handling is done on the bytes; [title] stands for the UTF-8
    encoding of the title. *)
Definition change_title (rst_file : path) (title : string) (fs : FS) : option FS :=
  match fs !! rst_file with
  | None => None
  | Some content =>
      if utf8_valid content then
        let lines := readlines content in
        let out := imap (fun ln line => if bool_decide (ln = 0) then title +:+ linesep else line) lines in
        Some (<[rst_file := String.concat "" out]> fs)
      else None
  end.

End BuildDefaultsRst.

(** ** [haddock/run_haddock.py] *)

Module RunHaddock.
Import PyLib.

(** [output_strct] in [generate_topology] (line 59):
    [input_strc.split('/')[1].split('.')[0]]. *)
Definition topology_output_name (input_strc : string) : py_error + string :=
  second ← py_index (py_split "/"%char input_strc) 1;
  py_index (py_split "."%char second) 0.

(** How a stage ends: [exit()] is called, or the file list is returned. *)
Inductive stage_outcome :=
| StageExit
| StageDone (file_list : list string).

(** The stage functions [run_it0], [run_it1] and [run_itw] share one body:
    [stage_key] selects the recipe in [run_param] and [default_recipes],
    [recipes_dir] is its template folder, [not_found_msg] the error printed
    when the recipe file is missing and [stage_run] the recipe class's
    [init], [run] and [output] (code outside this file). The result holds
    the lines printed and how the stage ends. *)
Definition run_stage {A : Type} (header : string) (stage_key recipes_dir not_found_msg : string)
    (default_recipes : list (string * string)) (isfile : string -> bool)
    (stage_run : string -> A -> list string) (recipe_name : string) (input : A)
    : py_error + (list string * stage_outcome) :=
  let supported_modules : list string := [] in
  recipe_name ← (if bool_decide (recipe_name = "default") then
                   match list_find (fun kv => kv.1 = stage_key) default_recipes with
                   | Some (_, kv) => inr kv.2
                   | None => inl PyKeyError
                   end
                 else inr recipe_name);
  let recipe := recipes_dir +:+ "/template/" +:+ recipe_name in
  let printed := header :: (if isfile recipe then [] else [not_found_msg]) in
  if negb (str_contains ".cns" recipe) then
    if bool_decide (recipe ∈ supported_modules) then mret (printed, StageDone [])
    else mret (app printed ["+ ERROR: " +:+ recipe +:+ " not supported."], StageExit)
  else mret (printed, StageDone (stage_run recipe input)).

(** The collaborators of the stage functions. *)
Class StageEnv := {
  default_recipes : list (string * string);
  isfile : string -> bool;
  rigid_body_run : string -> list (string * list string) -> list string;
  semi_flexible_run : string -> list string -> list string;
  water_refinement_run : string -> list string -> list string
}.

Section Stages.
Context {SE : StageEnv}.

Definition run_it0 (recipe_name : string) (model_dic : list (string * list string))
    : py_error + (list string * stage_outcome) :=
  run_stage (linesep +:+ "++ Running it0") "rigid_body" "rigid_body"
    "+ ERROR: Template recipe for rigid-body not found"
    default_recipes isfile rigid_body_run recipe_name model_dic.

Definition run_it1 (recipe_name : string) (model_list : list string)
    : py_error + (list string * stage_outcome) :=
  run_stage (linesep +:+ "++ Running it1") "semi_flexible" "semi_flexible"
    "+ ERROR: Template recipe for semi-flexible not found"
    default_recipes isfile semi_flexible_run recipe_name model_list.

Definition run_itw (recipe_name : string) (model_list : list string)
    : py_error + (list string * stage_outcome) :=
  run_stage (linesep +:+ "++ Running itw") "water_refinement" "water_refinement"
    "+ ERROR: Template recipe for semi-flexible not found"
    default_recipes isfile water_refinement_run recipe_name model_list.

End Stages.

(** The model selection of the main block (lines 214-245), given the ranked
    [rigid_complexes], the three sampling values and the refinement stages
    [it1] and [itw]: the warnings printed, the input of each refinement
    stage and the water-refined complexes. *)
Record selection := mkSelection {
  warnings : list string;
  semi_flexible_input : list string;
  water_refinement_input : list string;
  water_refinement_complexes : list string
}.

Definition select_models (rigid_complexes : list string)
    (rigid_sampling semiflex_sampling waterref_sampling : Z)
    (it1 itw : list string -> list string) : selection :=
  let w1 := if Z.gtb semiflex_sampling rigid_sampling then
              ["+ WARNING: Semi Flexible sampling (" +:+ Z_str semiflex_sampling
                 +:+ ") is higher than Rigid-body sampling (" +:+ Z_str rigid_sampling +:+ ")";
               "++ Passing " +:+ Z_str rigid_sampling +:+ " complexes to Semi Flexible stage"]
            else [] in
  let semi_flexible_input_complexes := py_slice_upto rigid_complexes semiflex_sampling in
  let semi_flexible_complexes := it1 semi_flexible_input_complexes in
  let w2 := if Z.gtb semiflex_sampling rigid_sampling then
              ["+ WARNING: Water refinement n (" +:+ Z_str waterref_sampling
                 +:+ ") is higher than Semi-flexible sampling " +:+ Z_str semiflex_sampling;
               "++ Passing " +:+ Z_str semiflex_sampling +:+ " complexes to Water refinement"]
            else [] in
  let water_refinement_input_complexes := py_slice_upto semi_flexible_complexes waterref_sampling in
  mkSelection (app w1 w2) semi_flexible_input_complexes water_refinement_input_complexes
    (itw water_refinement_input_complexes).

End RunHaddock.

(** ** Instances used to run the statements below on concrete inputs *)

Module ExtraExamples.
Import Yaml2Cfg PyLib Yaml2CfgMore RunHaddock.

(** [str] and [repr] of the scalar values (mappings and lists are not
    rendered by these examples). *)
#[global] Instance ex_format : PyFormat := {|
  py_str := fun v => match v with
    | YStr s => s
    | YInt n => Z_str (Z.of_nat n)
    | YBool b => if b then "True" else "False"
    | YNone => "None"
    | _ => "..."
    end;
  py_repr := fun v => match v with
    | YStr s => "'" +:+ s +:+ "'"
    | YInt n => Z_str (Z.of_nat n)
    | YBool b => if b then "True" else "False"
    | YNone => "None"
    | _ => "..."
    end |}.

(** Expert levels for the examples. *)
#[global] Instance ex_levels : ExpertLevels := {|
  config_expert_levels := ["easy"; "expert"; "guru"];
  _hidden_level := "hidden" |}.

(** Recipes and stages for the examples: each stage names one output file
    per input. *)
#[global] Instance ex_stages : StageEnv := {|
  default_recipes := [("rigid_body", "default.cns"); ("semi_flexible", "default.cns");
                      ("water_refinement", "default.cns")];
  isfile := fun r => bool_decide (r = "rigid_body/template/default.cns");
  rigid_body_run := fun recipe dic => map (fun kv => kv.1 +:+ "_it0.pdb") dic;
  semi_flexible_run := fun recipe l => map (fun x => x +:+ "_it1") l;
  water_refinement_run := fun recipe l => map (fun x => x +:+ "_itw") l |}.

End ExtraExamples.

(** * Proofs *)

(** ** Facts about string concatenation and decimal rendering *)

Lemma string_app_nil (s : string) : "" +:+ s = s.
Proof. reflexivity. Qed.

Lemma string_app_cons (c : Ascii.ascii) (s t : string) : String c s +:+ t = String c (s +:+ t).
Proof. reflexivity. Qed.

Lemma string_length_app (s t : string) :
  String.length (s +:+ t) = String.length s + String.length t.
Proof.
  induction s as [|c s IH]; rewrite ?string_app_nil, ?string_app_cons; simpl; [done|].
  by rewrite IH.
Qed.

Lemma string_app_inv_l (s t u : string) : s +:+ t = s +:+ u -> t = u.
Proof.
  induction s as [|c s IH]; rewrite ?string_app_nil, ?string_app_cons; [done|].
  intros H. injection H. apply IH.
Qed.

(** Two concatenations with suffixes of equal length split equally. *)
Lemma string_app_inv_eqlen (s1 s2 t1 t2 : string) :
  String.length t1 = String.length t2 ->
  s1 +:+ t1 = s2 +:+ t2 -> s1 = s2 /\ t1 = t2.
Proof.
  revert s2. induction s1 as [|c s1 IH]; intros [|c' s2] Hl H;
    rewrite ?string_app_nil, ?string_app_cons in H.
  - done.
  - rewrite H in Hl. simpl in Hl. rewrite string_length_app in Hl. lia.
  - rewrite <- H in Hl. simpl in Hl. rewrite string_length_app in Hl. lia.
  - injection H as -> H. destruct (IH s2 Hl H) as [-> ->]. done.
Qed.

Lemma nat_str_inj (i j : nat) : nat_str i = nat_str j -> i = j.
Proof.
  unfold nat_str. intros H.
  apply Unsigned.to_uint_inj.
  apply (f_equal NilEmpty.uint_of_string) in H.
  rewrite !NilEmpty.usu in H. congruence.
Qed.

Lemma path_join_inj (p : path) (a b : string) : path_join p a = path_join p b -> a = b.
Proof. unfold path_join. intros H. apply app_inv_head in H. by injection H. Qed.


Lemma flexref_path_inj (step : path) (i j : nat) (e1 e2 : string) :
  String.length e1 = String.length e2 ->
  path_join step (Flexref.flexref_fname i e1) = path_join step (Flexref.flexref_fname j e2) ->
  i = j /\ e1 = e2.
Proof.
  intros Hl H. apply path_join_inj in H. unfold Flexref.flexref_fname in H.
  apply string_app_inv_l in H.
  destruct (string_app_inv_eqlen _ _ _ _ Hl H) as [Hn ->].
  split; [by apply nat_str_inj | done].
Qed.

Lemma filter_None_nil_iff (fs : FS) (l : list path) :
  filter (fun p => fs !! p = None) l = [] <-> Forall (fun p => is_Some (fs !! p)) l.
Proof.
  induction l as [|p l IH]; [split; auto|].
  rewrite filter_cons, Forall_cons. destruct (decide (fs !! p = None)) as [Hp|Hp].
  - split; [done|]. intros [Hs _]. rewrite Hp in Hs. by destruct Hs.
  - rewrite IH. split; [|tauto]. intros HF; split; [|done]. by apply not_eq_None_Some.
Qed.

Lemma elem_of_map_iff {A B : Type} (f : A -> B) (l : list A) (y : B) :
  y ∈ map f l <-> exists x, y = f x /\ x ∈ l.
Proof.
  rewrite list_elem_of_In, in_map_iff. split.
  - intros (x & <- & Hx). exists x. split; [done|]. by apply list_elem_of_In.
  - intros (x & -> & Hx). exists x. split; [done|]. by apply list_elem_of_In.
Qed.

Lemma filter_None_ext (fsA fsB : FS) (l : list path) :
  (forall p, p ∈ l -> (is_Some (fsA !! p) <-> is_Some (fsB !! p))) ->
  filter (fun p => fsA !! p = None) l = filter (fun p => fsB !! p = None) l.
Proof.
  induction l as [|p l IH]; intros Hl; [done|]. rewrite !filter_cons.
  rewrite IH by (intros q Hq; apply Hl; by apply list_elem_of_further).
  assert (is_Some (fsA !! p) <-> is_Some (fsB !! p)) as Hp by (apply Hl; left).
  rewrite <- !not_eq_None_Some in Hp.
  destruct (decide (fsA !! p = None)), (decide (fsB !! p = None)); tauto.
Qed.

Lemma map_lookup_seq {B : Type} (f : nat -> B) (n i : nat) :
  i < n -> map f (seq 0 n) !! i = Some (f i).
Proof.
  intros Hi. assert (map f (seq 0 n) = f <$> seq 0 n) as ->.
  { induction (seq 0 n) as [|x l IH]; [done|]. simpl. by rewrite IH. }
  by rewrite list_lookup_fmap, lookup_seq_lt.
Qed.

(** ** Proofs about the flexref module *)

Module FlexrefProofs.
Import Flexref.

(** The paths of task [i] in step directory [step]. *)
Abbreviation inp_of step i := (path_join step (flexref_fname i ".inp")).
Abbreviation out_of step i := (path_join step (flexref_fname i ".out")).
Abbreviation pdb_of step i := (path_join step (flexref_fname i ".pdb")).

(** The message [finish_with_error] receives. *)
Abbreviation missing_msg names :=
  ("Several files were not generated:" +:+ " " +:+ py_repr_str_list names).

(** [refined_structure_list] of a run. *)
Abbreviation refined_of m :=
  (map (fun i => pdb_of (module_path m) i) (seq 0 (length (models_to_refine m)))).

Section Proofs.
Context {E : CNSEnv}.


Lemma generate_flexref_fst (idx : nat) (model : PDBFile) (step : path) (r : string)
    (d : path) (ambig : option string) (fs : FS) :
  (generate_flexref idx model step r d ambig fs).1 = inp_of step idx.
Proof. reflexivity. Qed.

Lemma generate_flexref_keeps (idx : nat) (model : PDBFile) (step : path) (r : string)
    (d : path) (ambig : option string) (fs : FS) (p : path) :
  is_Some (fs !! p) \/ p = inp_of step idx ->
  is_Some ((generate_flexref idx model step r d ambig fs).2 !! p).
Proof.
  simpl. intros [Hp| ->].
  - destruct (decide (p = inp_of step idx)) as [->|Hne].
    + by rewrite lookup_insert_eq.
    + by rewrite lookup_insert_ne by congruence.
  - by rewrite lookup_insert_eq.
Qed.

Lemma prepare_jobs_spec (m : HaddockModule) (ambig : option string) (idx : nat)
    (models : list PDBFile) (fs : FS) :
  prepare_jobs m ambig idx models fs =
    (map (fun i => mkCNSJob (inp_of (module_path m) i) (out_of (module_path m) i)
                     (cns_folder_path m)) (seq idx (length models)),
     map (fun i => pdb_of (module_path m) i) (seq idx (length models)),
     (prepare_jobs m ambig idx models fs).2).
Proof.
  revert idx fs. induction models as [|model rest IH]; intros idx fs; [done|].
  cbn [prepare_jobs]. pose proof (generate_flexref_fst idx model (module_path m) (recipe_str m)
                       (defaults m) ambig fs) as Hf.
  destruct (generate_flexref idx model (module_path m) (recipe_str m) (defaults m) ambig fs)
    as [inp fs'] eqn:G. simpl in Hf. subst inp.
  rewrite (IH (S idx) fs'). reflexivity.
Qed.

Lemma prepare_jobs_keeps (m : HaddockModule) (ambig : option string) (idx : nat)
    (models : list PDBFile) (fs : FS) (p : path) :
  is_Some (fs !! p) \/ (exists i, i < length models /\ p = inp_of (module_path m) (idx + i)) ->
  is_Some ((prepare_jobs m ambig idx models fs).2 !! p).
Proof.
  revert idx fs. induction models as [|model rest IH]; intros idx fs Hp; cbn [prepare_jobs].
  - destruct Hp as [Hp|(i & Hi & _)]; [done|simpl in Hi; lia].
  - pose proof (generate_flexref_keeps idx model (module_path m) (recipe_str m)
                  (defaults m) ambig fs p) as Hk.
    destruct (generate_flexref idx model (module_path m) (recipe_str m) (defaults m) ambig fs)
      as [inp fs'] eqn:G. simpl in Hk.
    rewrite (prepare_jobs_spec m ambig (S idx) rest fs'). simpl. apply IH.
    destruct Hp as [Hp|(i & Hi & ->)].
    + left. apply Hk. by left.
    + destruct i as [|i].
      * left. apply Hk. right. by rewrite Nat.add_0_r.
      * right. exists i. simpl in Hi. split; [lia|]. by rewrite Nat.add_succ_r.
Qed.

Lemma check_outputs_spec (m : HaddockModule) (topo : list PSFFile) (refined : list path)
    (fs : FS) :
  check_outputs m topo refined fs =
    (map (fun p => mkPDBFile p (module_path m) PDB topo) refined,
     map path_name (filter (fun p => fs !! p = None) refined)).
Proof.
  induction refined as [|p rest IH]; [done|]. cbn [check_outputs]. rewrite IH.
  rewrite filter_cons. unfold path_exists.
  destruct (decide (fs !! p = None)) as [Hn|Hn].
  - rewrite bool_decide_false by (rewrite Hn; apply is_Some_None). done.
  - rewrite bool_decide_true by (by apply not_eq_None_Some). done.
Qed.


Lemma verify_outputs_all_found (m : HaddockModule) (topo : list PSFFile)
    (refined : list path) (fs : FS) :
  Forall (fun p => is_Some (fs !! p)) refined ->
  verify_outputs m topo refined fs =
    (Saved, io_save (mkModuleIO refined (map (fun p => mkPDBFile p (module_path m) PDB topo)
                                          refined)) (module_path m) fs).
Proof.
  intros HF. apply filter_None_nil_iff in HF.
  unfold verify_outputs. rewrite check_outputs_spec, HF. done.
Qed.

Lemma verify_outputs_missing (m : HaddockModule) (topo : list PSFFile)
    (refined : list path) (fs : FS) :
  filter (fun p => fs !! p = None) refined <> [] ->
  verify_outputs m topo refined fs =
    (ModuleError (missing_msg (map path_name (filter (fun p => fs !! p = None) refined))), fs).
Proof.
  intros Hne. unfold verify_outputs. rewrite check_outputs_spec.
  destruct (filter (fun p => fs !! p = None) refined) as [|q qs]; [done|]. done.
Qed.


Lemma run_spec (m : HaddockModule) (ambig : option string) (fs : FS)
    (first_model : PDBFile) (rest : list PDBFile) :
  models_to_refine m = first_model :: rest ->
  run m ambig fs = verify_outputs m (topology first_model) (refined_of m)
                     (fs_after_engine m ambig fs).
Proof.
  intros Hm. unfold run, fs_after_engine. rewrite Hm.
  rewrite prepare_jobs_spec. done.
Qed.

Lemma pdb_of_names_inj (step : path) (i j : nat) :
  path_name (pdb_of step i) = path_name (pdb_of step j) -> i = j.
Proof.
  unfold path_name, path_join. rewrite !last_snoc. simpl. intros H.
  apply (flexref_path_inj step i j ".pdb" ".pdb"); [done|]. by rewrite H.
Qed.

(** Claim C1. After the engine has run, [run] decides each task's outcome
    from the filesystem alone: it is [verify_outputs] applied to the
    filesystem the engine left (the engine returns nothing it reads); task
    [i] is listed as not found exactly when its declared output
    [flexref_i.pdb] is absent; two filesystems that agree on which declared
    outputs exist give the same outcome; and the run succeeds exactly when
    every declared output exists. *)
Theorem run_classifies_by_existence (m : HaddockModule) (ambig : option string) (fs : FS)
    (first_model : PDBFile) (rest : list PDBFile) :
  models_to_refine m = first_model :: rest ->
  run m ambig fs = verify_outputs m (topology first_model) (refined_of m)
                     (fs_after_engine m ambig fs) /\
  (forall i, i < length (models_to_refine m) ->
     (path_name (pdb_of (module_path m) i)
        ∈ (check_outputs m (topology first_model) (refined_of m)
             (fs_after_engine m ambig fs)).2
      <-> fs_after_engine m ambig fs !! pdb_of (module_path m) i = None)) /\
  (forall fsA fsB : FS,
     (forall p, p ∈ refined_of m -> (is_Some (fsA !! p) <-> is_Some (fsB !! p))) ->
     (verify_outputs m (topology first_model) (refined_of m) fsA).1 =
     (verify_outputs m (topology first_model) (refined_of m) fsB).1) /\
  ((run m ambig fs).1 = Saved <->
     Forall (fun p => is_Some (fs_after_engine m ambig fs !! p)) (refined_of m)).
Proof.
  intros Hm. set (fs2 := fs_after_engine m ambig fs).
  assert (Hrun := run_spec m ambig fs first_model rest Hm). fold fs2 in Hrun.
  split; [done|]. split; [|split].
  - intros i Hi. rewrite check_outputs_spec. simpl. rewrite elem_of_map_iff. split.
    + intros (q & Hn & Hq). apply list_elem_of_filter in Hq as [HN Hq].
      apply elem_of_map_iff in Hq as (j & -> & _). apply pdb_of_names_inj in Hn.
      by subst j.
    + intros HN. exists (pdb_of (module_path m) i). split; [done|].
      apply list_elem_of_filter. split; [done|]. apply elem_of_map_iff.
      exists i. split; [done|]. apply elem_of_seq. lia.
  - intros fsA fsB Hag. pose proof (filter_None_ext fsA fsB _ Hag) as Hf.
    destruct (decide (filter (fun p => fsA !! p = None) (refined_of m) = [])) as [H0|H0].
    + rewrite !verify_outputs_all_found; [done| |].
      * apply filter_None_nil_iff. by rewrite <- Hf.
      * by apply filter_None_nil_iff.
    + rewrite !verify_outputs_missing; [by rewrite Hf | by rewrite <- Hf | done].
  - rewrite Hrun. split.
    + intros HS. destruct (decide (filter (fun p => fs2 !! p = None) (refined_of m) = []))
        as [H0|H0]; [by apply filter_None_nil_iff|].
      rewrite verify_outputs_missing in HS by done. done.
    + intros HF. by rewrite verify_outputs_all_found.
Qed.

(** Claim C3. The check for missing outputs runs once, on the filesystem
    left by the engine after it received the whole job list (one job per
    model); every declared output is examined, and when some are absent
    the run stops with one error whose message lists the names of all of
    them, in task order. *)
Theorem run_reports_missing_in_aggregate (m : HaddockModule) (ambig : option string)
    (fs : FS) (first_model : PDBFile) (rest : list PDBFile) :
  models_to_refine m = first_model :: rest ->
  fs_after_engine m ambig fs =
    cns_engine_run
      (map (fun i => mkCNSJob (inp_of (module_path m) i) (out_of (module_path m) i)
                       (cns_folder_path m)) (seq 0 (length (models_to_refine m))))
      (prepare_jobs m ambig 0 (models_to_refine m) fs).2 /\
  (filter (fun p => fs_after_engine m ambig fs !! p = None) (refined_of m) <> [] ->
   run m ambig fs =
     (ModuleError (missing_msg (map path_name
        (filter (fun p => fs_after_engine m ambig fs !! p = None) (refined_of m)))),
      fs_after_engine m ambig fs)).
Proof.
  intros Hm. split.
  - unfold fs_after_engine. by rewrite prepare_jobs_spec.
  - intros Hne. rewrite (run_spec m ambig fs first_model rest Hm).
    by apply verify_outputs_missing.
Qed.

(** Claim C9. Once the engine has run, [io.json] is written exactly when
    every expected structure file exists; otherwise the run ends through
    the error path and leaves the filesystem as the engine left it. *)
Theorem run_saves_io_iff_outputs_exist (m : HaddockModule) (ambig : option string)
    (fs : FS) (first_model : PDBFile) (rest : list PDBFile) :
  models_to_refine m = first_model :: rest ->
  ((run m ambig fs).1 = Saved <->
     Forall (fun p => is_Some (fs_after_engine m ambig fs !! p)) (refined_of m)) /\
  (Forall (fun p => is_Some (fs_after_engine m ambig fs !! p)) (refined_of m) ->
   (run m ambig fs).2 =
     <[path_join (module_path m) MODULE_IO_FILE :=
         io_to_json (mkModuleIO (refined_of m)
           (map (fun p => mkPDBFile p (module_path m) PDB (topology first_model))
              (refined_of m)))]> (fs_after_engine m ambig fs)) /\
  (~ Forall (fun p => is_Some (fs_after_engine m ambig fs !! p)) (refined_of m) ->
   (exists msg, (run m ambig fs).1 = ModuleError msg) /\
   (run m ambig fs).2 = fs_after_engine m ambig fs).
Proof.
  intros Hm. rewrite (run_spec m ambig fs first_model rest Hm).
  set (fs2 := fs_after_engine m ambig fs).
  destruct (decide (Forall (fun p => is_Some (fs2 !! p)) (refined_of m))) as [HF|HF].
  - rewrite verify_outputs_all_found by done. simpl. split; [tauto|]. split; [done|tauto].
  - assert (filter (fun p => fs2 !! p = None) (refined_of m) <> []) as Hne
      by (by rewrite filter_None_nil_iff).
    rewrite verify_outputs_missing by done. simpl.
    split; [split; [done|tauto]|]. split; [tauto|]. intros _. split; [by eexists|done].
Qed.

(** Claim C8. [run] indexes the first PDB model before any guard: it ends
    with [IndexError], writing nothing, exactly when the previous step
    left no PDB model. *)
Theorem run_index_error_iff_no_models (m : HaddockModule) (ambig : option string) (fs : FS) :
  run m ambig fs = (IndexError, fs) <-> models_to_refine m = [].
Proof.
  split.
  - intros H. destruct (models_to_refine m) as [|first_model rest] eqn:Hm; [done|].
    rewrite (run_spec m ambig fs first_model rest Hm) in H.
    set (fs2 := fs_after_engine m ambig fs) in H.
    destruct (decide (Forall (fun p => is_Some (fs2 !! p)) (refined_of m))) as [HF|HF].
    + by rewrite verify_outputs_all_found in H.
    + rewrite verify_outputs_missing in H by (by rewrite filter_None_nil_iff). done.
  - intros Hm. unfold run. by rewrite Hm.
Qed.

(** Claim C4. Before the engine runs, task [i] gets the input
    [flexref_i.inp], the log [flexref_i.out] and the structure
    [flexref_i.pdb] in the step directory, as a function of [i] alone; the
    [.inp] file is written; and no two (index, kind) pairs share a path. *)
Theorem task_files_by_index (m : HaddockModule) (ambig : option string) (fs : FS) :
  let r := prepare_jobs m ambig 0 (models_to_refine m) fs in
  length r.1.1 = length (models_to_refine m) /\
  length r.1.2 = length (models_to_refine m) /\
  (forall i, i < length (models_to_refine m) ->
     r.1.1 !! i = Some (mkCNSJob (inp_of (module_path m) i) (out_of (module_path m) i)
                          (cns_folder_path m)) /\
     r.1.2 !! i = Some (pdb_of (module_path m) i) /\
     is_Some (r.2 !! inp_of (module_path m) i)) /\
  (forall (i j : nat) (e1 e2 : string),
     e1 ∈ [".inp"; ".out"; ".pdb"] -> e2 ∈ [".inp"; ".out"; ".pdb"] ->
     path_join (module_path m) (flexref_fname i e1) =
     path_join (module_path m) (flexref_fname j e2) -> i = j /\ e1 = e2).
Proof.
  cbv zeta. rewrite prepare_jobs_spec. simpl.
  split; [by rewrite length_map, length_seq|].
  split; [by rewrite length_map, length_seq|]. split.
  - intros i Hi. split; [by rewrite map_lookup_seq|]. split; [by rewrite map_lookup_seq|].
    apply prepare_jobs_keeps. right. exists i. split; [done|]. done.
  - intros i j e1 e2 H1 H2. apply flexref_path_inj.
    apply list_elem_of_In in H1, H2. simpl in H1, H2.
    destruct H1 as [<-|[<-|[<-|[]]]]; destruct H2 as [<-|[<-|[<-|[]]]]; reflexivity.
Qed.

(** Claim C2 (amended). When some declared outputs are missing after the
    engine run, [run] does not return a result: it examines every task and
    stops through [finish_with_error] with one message naming all missing
    structure files, leaving the filesystem as the engine left it (no
    [io.json]); the engine itself hands back no per-task result. *)
Theorem run_partial_failure_stops_module (m : HaddockModule) (ambig : option string)
    (fs : FS) (first_model : PDBFile) (rest : list PDBFile) :
  models_to_refine m = first_model :: rest ->
  filter (fun p => fs_after_engine m ambig fs !! p = None) (refined_of m) <> [] ->
  (run m ambig fs).1 =
    ModuleError (missing_msg (map path_name
      (filter (fun p => fs_after_engine m ambig fs !! p = None) (refined_of m)))) /\
  (run m ambig fs).2 = fs_after_engine m ambig fs.
Proof.
  intros Hm Hne. rewrite (run_spec m ambig fs first_model rest Hm).
  by rewrite verify_outputs_missing.
Qed.

End Proofs.
Import Examples.

Abbreviation step1_file name := (["run"; "step_1"; name] : path).

(** Claim C2: counterexample. With two models of which only the first gets
    its structure file, the run does not hand back a result map: it stops
    with an error naming the missing file. *)
Lemma partial_failure_is_fatal :
  let E := demo_env [step1_file "flexref_0.pdb"] in
  (@run E demo_module None ∅).1 =
    ModuleError "Several files were not generated: ['flexref_1.pdb']".
Proof. vm_compute. reflexivity. Qed.

Lemma run_classifies_by_existence_witness :
  let E := demo_env [step1_file "flexref_0.pdb"] in
  models_to_refine demo_module = [dm1; dm2] /\
  ((@run E demo_module None ∅).1 = Saved <->
     Forall (fun p => is_Some (@fs_after_engine E demo_module None ∅ !! p))
       (refined_of demo_module)).
Proof.
  split; [reflexivity|].
  apply (proj2 (proj2 (proj2 (@run_classifies_by_existence
    (demo_env [step1_file "flexref_0.pdb"]) demo_module None ∅ dm1 [dm2] eq_refl)))).
Defined.

Lemma run_reports_missing_in_aggregate_witness :
  let E := demo_env [step1_file "flexref_0.pdb"] in
  models_to_refine demo_module = [dm1; dm2] /\
  filter (fun p => @fs_after_engine E demo_module None ∅ !! p = None)
    (refined_of demo_module) <> [] /\
  @run E demo_module None ∅ =
    (ModuleError (missing_msg (map path_name
       (filter (fun p => @fs_after_engine E demo_module None ∅ !! p = None)
          (refined_of demo_module)))),
     @fs_after_engine E demo_module None ∅).
Proof.
  assert (Hne : filter (fun p => @fs_after_engine (demo_env [step1_file "flexref_0.pdb"])
                  demo_module None ∅ !! p = None) (refined_of demo_module) <> [])
    by (vm_compute; discriminate).
  split; [reflexivity|]. split; [exact Hne|].
  apply (proj2 (@run_reports_missing_in_aggregate
    (demo_env [step1_file "flexref_0.pdb"]) demo_module None ∅ dm1 [dm2] eq_refl) Hne).
Defined.

Lemma run_saves_io_iff_outputs_exist_witness :
  let E := demo_env [step1_file "flexref_0.pdb"; step1_file "flexref_1.pdb"] in
  models_to_refine demo_module = [dm1; dm2] /\
  ((@run E demo_module None ∅).1 = Saved <->
     Forall (fun p => is_Some (@fs_after_engine E demo_module None ∅ !! p))
       (refined_of demo_module)).
Proof.
  split; [reflexivity|].
  apply (proj1 (@run_saves_io_iff_outputs_exist
    (demo_env [step1_file "flexref_0.pdb"; step1_file "flexref_1.pdb"])
    demo_module None ∅ dm1 [dm2] eq_refl)).
Defined.

Lemma run_partial_failure_stops_module_witness :
  let E := demo_env [step1_file "flexref_0.pdb"] in
  models_to_refine demo_module = [dm1; dm2] /\
  filter (fun p => @fs_after_engine E demo_module None ∅ !! p = None)
    (refined_of demo_module) <> [] /\
  (@run E demo_module None ∅).2 = @fs_after_engine E demo_module None ∅.
Proof.
  assert (Hne : filter (fun p => @fs_after_engine (demo_env [step1_file "flexref_0.pdb"])
                  demo_module None ∅ !! p = None) (refined_of demo_module) <> [])
    by (vm_compute; discriminate).
  split; [reflexivity|]. split; [exact Hne|].
  apply (proj2 (@run_partial_failure_stops_module
    (demo_env [step1_file "flexref_0.pdb"]) demo_module None ∅ dm1 [dm2] eq_refl Hne)).
Defined.

End FlexrefProofs.

(** ** Proofs about the MPI scheduler and worker *)

Lemma string_app_assoc (s t u : string) : (s +:+ t) +:+ u = s +:+ (t +:+ u).
Proof.
  induction s as [|c s IH]; rewrite ?string_app_nil, ?string_app_cons; [done|].
  by rewrite IH.
Qed.

Module MpiProofs.
Import Mpi.

Lemma dec_str_enc (s r : string) : dec_str (enc_str s +:+ r) = Some (s, r).
Proof.
  induction s as [|c s IH].
  - reflexivity.
  - cbn [enc_str]. rewrite !string_app_cons. cbn [dec_str]. simpl. by rewrite IH.
Qed.

Lemma enc_str_length (s : string) : 1 <= String.length (enc_str s).
Proof. destruct s; simpl; lia. Qed.

Lemma enc_path_length (p : path) : S (length p) <= String.length (enc_path p).
Proof.
  induction p as [|c p IH]; simpl; [lia|].
  rewrite !string_length_app. simpl. pose proof (enc_str_length c). lia.
Qed.

Lemma dec_path_enc (p : path) (fuel : nat) (r : string) :
  length p < fuel -> dec_path fuel (enc_path p +:+ r) = Some (p, r).
Proof.
  revert fuel. induction p as [|c p IH]; intros [|fuel] Hf; simpl in Hf; try lia.
  - reflexivity.
  - cbn [enc_path]. rewrite !string_app_assoc. rewrite string_app_cons, string_app_nil.
    cbn [dec_path]. simpl. rewrite dec_str_enc. rewrite IH by lia. done.
Qed.

Lemma dec_path_all_enc (p : path) (r : string) :
  dec_path_all (enc_path p +:+ r) = Some (p, r).
Proof.
  unfold dec_path_all. apply dec_path_enc. rewrite string_length_app.
  pose proof (enc_path_length p). lia.
Qed.

Lemma enc_tasks_length (ts : list Task) : S (length ts) <= String.length (enc_tasks ts).
Proof.
  induction ts as [|t ts IH]; simpl; [lia|]. rewrite string_length_app.
  destruct t; simpl; rewrite ?string_length_app; lia.
Qed.

Lemma dec_tasks_enc (ts : list Task) (fuel : nat) :
  length ts < fuel -> dec_tasks fuel (enc_tasks ts) = Some ts.
Proof.
  revert fuel. induction ts as [|t ts IH]; intros [|fuel] Hf; simpl in Hf; try lia.
  - reflexivity.
  - cbn [enc_tasks]. destruct t as [p|i o b]; cbn [enc_task].
    + rewrite string_app_assoc, string_app_cons, string_app_nil. cbn [dec_tasks]. simpl.
      rewrite dec_path_all_enc. rewrite IH by lia. done.
    + rewrite !string_app_assoc, string_app_cons, string_app_nil. cbn [dec_tasks]. simpl.
      rewrite dec_str_enc, dec_path_all_enc, dec_path_all_enc. rewrite IH by lia. done.
Qed.

Lemma pickle_roundtrip (ts : list Task) : pickle_loads (pickle_dumps ts) = Some ts.
Proof.
  unfold pickle_dumps, PROTO. rewrite !string_app_cons, string_app_nil.
  cbn [pickle_loads]. rewrite bool_decide_true by done.
  apply dec_tasks_enc. pose proof (enc_tasks_length ts). lia.
Qed.

Lemma elem_of_worker_slice (rank W n i : nat) :
  i ∈ worker_slice rank W n <-> i < n /\ i mod W = rank.
Proof.
  unfold worker_slice. rewrite list_elem_of_filter, elem_of_seq. lia.
Qed.

Lemma task_run_mono `{Exec} (t : Task) (fs : FS) (p : path) :
  (forall bin inp (fs0 : FS) q, is_Some (fs0 !! q) -> is_Some (exec bin inp fs0 !! q)) ->
  is_Some (fs !! p) -> is_Some (task_run t fs !! p).
Proof.
  intros Hmono Hp. destruct t as [o|i o b]; simpl; [|by apply Hmono].
  destruct (fs !! o) eqn:Ho; [done|].
  destruct (decide (p = o)) as [->|Hne]; [by rewrite lookup_insert_eq|].
  by rewrite lookup_insert_ne by congruence.
Qed.

Lemma touch_creates `{Exec} (p : path) (fs : FS) :
  is_Some (task_run (TouchTask p) fs !! task_output (TouchTask p)).
Proof. simpl. destruct (fs !! p) eqn:Hp; [by rewrite Hp|]. by rewrite lookup_insert_eq. Qed.

Lemma run_all_keeps_outputs `{Exec} (l : list Task) (fs : FS) (t : Task) :
  (forall bin inp (fs0 : FS) q, is_Some (fs0 !! q) -> is_Some (exec bin inp fs0 !! q)) ->
  t ∈ l -> (forall fs0 : FS, is_Some (task_run t fs0 !! task_output t)) ->
  is_Some (foldl (fun fs t => task_run t fs) fs l !! task_output t).
Proof.
  intros Hmono Hin Hcr. revert fs. induction l as [|t' l IH]; intros fs;
    [by apply elem_of_nil in Hin|].
  simpl. apply elem_of_cons in Hin as [<-|Hin]; [|by apply IH].
  assert (forall fs1, is_Some (fs1 !! task_output t) ->
            is_Some (foldl (fun fs t => task_run t fs) fs1 l !! task_output t)) as Hkeep.
  { clear IH. induction l as [|t'' l IHl]; intros fs1 H1; [done|].
    simpl. apply IHl. by apply task_run_mono. }
  apply Hkeep, Hcr.
Qed.

(** Claim C5 (the slice rule is modelled from the spec). A rank's slice
    is a function of (rank, world size, batch length) only; for
    [0 < W <= n] the slices of ranks [0..W-1] cover [0..n-1], no index is
    in two slices nor twice in one; with [W = 3] and [n = 7] rank 0 gets
    [0; 3; 6], rank 1 [1; 4] and rank 2 [2; 5]. *)
Theorem worker_slices_partition (W n : nat) :
  0 < W -> W <= n ->
  (forall i, i < n <-> exists rank, rank < W /\ i ∈ worker_slice rank W n) /\
  (forall r1 r2 i, i ∈ worker_slice r1 W n -> i ∈ worker_slice r2 W n -> r1 = r2) /\
  (forall rank, NoDup (worker_slice rank W n)) /\
  worker_slice 0 3 7 = [0; 3; 6] /\ worker_slice 1 3 7 = [1; 4] /\
  worker_slice 2 3 7 = [2; 5].
Proof.
  intros HW _. split; [|split; [|split]].
  - intros i. split.
    + intros Hi. exists (i mod W). split; [by apply Nat.mod_upper_bound; lia|].
      by apply elem_of_worker_slice.
    + intros (r & _ & Hr). by apply elem_of_worker_slice in Hr as [? _].
  - intros r1 r2 i H1 H2. apply elem_of_worker_slice in H1 as [_ <-].
    by apply elem_of_worker_slice in H2 as [_ <-].
  - intros rank. apply NoDup_filter, NoDup_seq.
  - repeat split; reflexivity.
Qed.

(** Claim C6 (the record format is modelled from the spec). Writing the
    batch puts one record at [cwd / "mpi.pkl"], non-empty, holding the
    whole ordered task list (loading it gives the tasks back), and changes
    no other file. *)
Theorem pickle_tasks_writes_one_record (sched : MPIScheduler) (fs : FS) :
  tasks sched <> [] ->
  _pickle_tasks sched fs !! path_join (cwd sched) "mpi.pkl" = Some (pickle_dumps (tasks sched)) /\
  pickle_dumps (tasks sched) <> "" /\
  (forall p, p <> path_join (cwd sched) "mpi.pkl" -> _pickle_tasks sched fs !! p = fs !! p) /\
  pickle_loads (pickle_dumps (tasks sched)) = Some (tasks sched).
Proof.
  intros _. unfold _pickle_tasks, pickle_path. split; [by rewrite lookup_insert_eq|].
  split; [unfold pickle_dumps, PROTO; by rewrite string_app_cons|].
  split; [intros p Hp; by rewrite lookup_insert_ne by congruence|].
  apply pickle_roundtrip.
Qed.

Lemma seq_filter_sorted (P : nat -> Prop) `{!forall i, Decision (P i)} (s n : nat) :
  StronglySorted lt (filter P (seq s n)).
Proof.
  revert s. induction n as [|n IH]; intros s; [constructor|].
  cbn [seq]. rewrite filter_cons. case_decide; [|apply IH].
  constructor; [apply IH|]. apply Forall_forall. intros x Hx.
  apply list_elem_of_filter in Hx as [_ Hx]. apply elem_of_seq in Hx. lia.
Qed.

Lemma sorted_lookup_lt (l : list nat) (k1 k2 i1 i2 : nat) :
  StronglySorted lt l -> k1 < k2 -> l !! k1 = Some i1 -> l !! k2 = Some i2 -> i1 < i2.
Proof.
  revert k1 k2. induction l as [|x l IH]; intros k1 k2 Hs Hk H1 H2; [done|].
  inversion Hs as [|? ? Hs' Hall]; subst.
  destruct k1 as [|k1], k2 as [|k2]; [lia| |lia|].
  - simpl in H1, H2. injection H1 as <-. rewrite Forall_forall in Hall.
    apply Hall. by apply list_elem_of_lookup_2 in H2.
  - simpl in H1, H2. apply (IH k1 k2); [done|lia|done|done].
Qed.

Lemma omap_lookup_in_range {A} (ts : list A) (sl : list nat) :
  (forall i, i ∈ sl -> i < length ts) ->
  length (omap (fun i => ts !! i) sl) = length sl /\
  (forall k i, sl !! k = Some i -> omap (fun i => ts !! i) sl !! k = ts !! i).
Proof.
  induction sl as [|i sl IH]; intros Hr; [done|].
  destruct (lookup_lt_is_Some_2 ts i) as [t Ht]; [apply Hr; left|].
  destruct IH as [IHl IHk]; [intros j Hj; apply Hr; by right|].
  cbn [omap list_omap]. rewrite Ht. split; [simpl; by rewrite IHl|].
  intros [|k] j Hk; simpl in Hk |- *; [by injection Hk as <-|by apply IHk].
Qed.

Lemma run_all_keeps_absent `{Exec} (l : list Task) (fs : FS) (o : path) :
  fs !! o = None ->
  (forall t, t ∈ l -> forall fs0 : FS, fs0 !! o = None -> task_run t fs0 !! o = None) ->
  foldl (fun fs t => task_run t fs) fs l !! o = None.
Proof.
  revert fs. induction l as [|t l IH]; intros fs Ho Hl; [done|].
  simpl. apply IH; [apply Hl; [left|done]|]. intros t' Ht'. apply Hl. by right.
Qed.

(** Claim C7 (amended; the worker is modelled from the spec). Given the
    path of a record written by [_pickle_tasks], the worker runs the tasks
    of its slice once each, in increasing index order (the [k]-th task run
    is the task at the [k]-th index of the slice), and returns exit status
    0 whatever the tasks did. Provided no task deletes files, every
    assigned task whose run creates its output (the test's touch task
    always does) has its output afterwards. An output absent before that no
    task of the slice creates is absent afterwards, while the exit status
    is still 0. *)
Theorem worker_main_exits_zero `{Exec} (sched : MPIScheduler) (rank W : nat) (fs : FS) :
  let ts := tasks sched in
  let sl := worker_slice rank W (length ts) in
  let fs1 := _pickle_tasks sched fs in
  exists mine fs',
    worker_main rank W (pickle_path sched) fs1 = inr (0, fs') /\
    fs' = foldl (fun fs t => task_run t fs) fs1 mine /\
    length mine = length sl /\
    (forall k i, sl !! k = Some i -> mine !! k = ts !! i) /\
    (forall k1 k2 i1 i2, k1 < k2 -> sl !! k1 = Some i1 -> sl !! k2 = Some i2 -> i1 < i2) /\
    (forall i, i ∈ sl <-> i < length ts /\ i mod W = rank) /\
    ((forall bin inp (fs0 : FS) q, is_Some (fs0 !! q) -> is_Some (exec bin inp fs0 !! q)) ->
     forall i t, i ∈ sl -> ts !! i = Some t ->
       (forall fs0 : FS, is_Some (task_run t fs0 !! task_output t)) ->
       is_Some (fs' !! task_output t)) /\
    (forall o, fs1 !! o = None ->
     (forall i t, i ∈ sl -> ts !! i = Some t ->
        forall fs0 : FS, fs0 !! o = None -> task_run t fs0 !! o = None) ->
     fs' !! o = None).
Proof.
  intros ts sl fs1.
  set (mine := omap (fun i => ts !! i) sl).
  assert (Hsl : forall i, i ∈ sl <-> i < length ts /\ i mod W = rank)
    by (intros i; apply elem_of_worker_slice).
  assert (Hmine : forall t, t ∈ mine <-> exists i, i ∈ sl /\ ts !! i = Some t)
    by (intros t; apply list_elem_of_omap).
  destruct (omap_lookup_in_range ts sl) as [Hlen Hk]; [intros i Hi; by apply Hsl|].
  exists mine, (foldl (fun fs t => task_run t fs) fs1 mine).
  split; [|split; [done|split; [done|split; [done|split; [|split; [done|split]]]]]].
  - unfold worker_main, fs1, _pickle_tasks, pickle_path.
    by rewrite lookup_insert_eq, pickle_roundtrip.
  - intros k1 k2 i1 i2. apply sorted_lookup_lt, seq_filter_sorted.
  - intros Hmono i t Hi Ht Hcr. apply run_all_keeps_outputs; [done| |done].
    apply Hmine. by exists i.
  - intros o Ho Hl. apply run_all_keeps_absent; [done|].
    intros t Ht. apply Hmine in Ht as (i & Hi & Hti). by apply (Hl i t).
Qed.

Import MpiExamples.

Lemma worker_slices_partition_witness :
  0 < 3 /\ 3 <= 7 /\ worker_slice 1 3 7 = [1; 4].
Proof.
  split; [lia|]. split; [lia|].
  exact (proj1 (proj2 (proj2 (proj2 (proj2 (worker_slices_partition 3 7 ltac:(lia) ltac:(lia))))))).
Defined.

Lemma pickle_tasks_writes_one_record_witness :
  tasks touch_sched <> [] /\ pickle_dumps (tasks touch_sched) <> "".
Proof.
  assert (Hne : tasks touch_sched <> []) by discriminate.
  split; [exact Hne|].
  exact (proj1 (proj2 (pickle_tasks_writes_one_record touch_sched ∅ Hne))).
Defined.

Lemma worker_main_exits_zero_witness :
  (forall bin inp (fs0 : FS) q,
     is_Some (fs0 !! q) -> is_Some (@exec silent_exec bin inp fs0 !! q)) /\
  exists fs', @worker_main silent_exec 0 1 (pickle_path touch_sched)
                (_pickle_tasks touch_sched ∅) = inr (0, fs') /\
    is_Some (fs' !! ["tmp"; "b.out"]).
Proof.
  assert (Hmono : forall bin inp (fs0 : FS) q,
            is_Some (fs0 !! q) -> is_Some (@exec silent_exec bin inp fs0 !! q))
    by (intros; simpl; done).
  split; [exact Hmono|].
  destruct (@worker_main_exits_zero silent_exec touch_sched 0 1 ∅)
    as (mine & fs' & Hw & _ & _ & _ & _ & Hsl & Hout & _).
  exists fs'. split; [exact Hw|].
  apply (Hout Hmono 1 (TouchTask ["tmp"; "b.out"])).
  - apply Hsl. split; vm_compute; [lia|reflexivity].
  - reflexivity.
  - intros fs0. apply (@touch_creates silent_exec).
Defined.

(** Claim C7: counterexample. A CNS job whose binary writes nothing: the
    worker still returns exit status 0, and the job's declared output does
    not exist. *)
Lemma worker_output_may_be_missing :
  @worker_main silent_exec 0 1 (pickle_path cns_sched) (_pickle_tasks cns_sched ∅) =
    inr (0, _pickle_tasks cns_sched ∅) /\
  _pickle_tasks cns_sched ∅ !! ["tmp"; "cns.out"] = None.
Proof. split; vm_compute; reflexivity. Qed.

End MpiProofs.

(** ** Proofs about [flat_yaml_cfg] *)

Module Yaml2CfgProofs.
Import Yaml2Cfg.

(** Induction on YAML values, with a hypothesis for every value of a
    mapping. *)
Lemma YVal_nested_ind (P : YVal -> Prop)
    (Hmap : forall items, Forall (fun kv => P kv.2) items -> P (YMap items))
    (Hstr : forall s, P (YStr s)) (Hint : forall n, P (YInt n))
    (Hbool : forall b, P (YBool b)) (Hlist : forall l, P (YList l)) (Hnone : P YNone) :
  forall v, P v.
Proof.
  fix F 1. intros [items|s|n|b|l|];
    [| apply Hstr | apply Hint | apply Hbool | apply Hlist | apply Hnone].
  apply Hmap. revert items. fix G 1. intros [|[k v] rest]; constructor.
  - apply F.
  - apply G.
Qed.

Lemma lookup_dict_setitem (k k' : string) (v : YVal) (d : list (string * YVal)) :
  assoc_lookup k (dict_setitem k' v d) = if bool_decide (k = k') then Some v else assoc_lookup k d.
Proof.
  induction d as [|[k'' v''] d IH]; simpl.
  - done.
  - destruct (bool_decide_reflect (k' = k'')) as [->|Hne]; simpl.
    + destruct (bool_decide_reflect (k = k'')); done.
    + rewrite IH. destruct (bool_decide_reflect (k = k')) as [->|]; [|done].
      by rewrite bool_decide_false.
Qed.

Lemma flat_loop_error (items : list (string * YVal)) (new : list (string * YVal)) :
  Forall (fun kv => is_error (flat_yaml_cfg_val kv.2) = default_without_explevel kv.2) items ->
  is_error (flat_loop flat_yaml_cfg_val new items) = bad_items default_without_explevel items.
Proof.
  revert new. induction items as [|[param values] rest IH]; intros new HF; [done|].
  apply Forall_cons in HF as [Hv HF]. simpl in Hv.
  cbn [flat_loop bad_items]. destruct values as [l|s|n|b|l|]; simpl; try by apply IH.
  destruct (assoc_lookup "default" l) as [d|] eqn:Hd; simpl.
  - unfold contains. destruct (bool_decide (is_Some (assoc_lookup "explevel" l))); simpl;
      [by apply IH|done].
  - simpl in Hv. rewrite <- Hv.
    destruct (flat_loop flat_yaml_cfg_val [] l); simpl; [done|]. by apply IH.
Qed.

Lemma flat_yaml_cfg_val_error (v : YVal) :
  is_error (flat_yaml_cfg_val v) = default_without_explevel v.
Proof.
  induction v as [items HF| | | | |] using YVal_nested_ind; try done.
  cbn [flat_yaml_cfg_val default_without_explevel]. by apply flat_loop_error.
Qed.

Lemma flat_loop_result (items : list (string * YVal)) (new r : list (string * YVal)) :
  NoDup (map fst items) ->
  (forall k, k ∈ map fst items -> assoc_lookup k new = None) ->
  flat_loop flat_yaml_cfg_val new items = inr r ->
  forall k, assoc_lookup k r =
    match assoc_lookup k items with Some v => expected_entry v | None => assoc_lookup k new end.
Proof.
  revert new. induction items as [|[param values] rest IH]; intros new Hnd Hfresh Hr k.
  - simpl in Hr. by injection Hr as ->.
  - simpl in Hnd. apply NoDup_cons in Hnd as [Hnin Hnd].
    assert (Hfresh' : forall v, forall k', k' ∈ map fst rest ->
              assoc_lookup k' (dict_setitem param v new) = None).
    { intros v k' Hk'. rewrite lookup_dict_setitem.
      rewrite bool_decide_false by (intros ->; done).
      apply Hfresh. simpl. by apply list_elem_of_further. }
    assert (Hpar : assoc_lookup param new = None) by (apply Hfresh; left).
    assert (Hrest : forall k', k' ∈ map fst rest -> assoc_lookup k' new = None)
      by (intros k' Hk'; apply Hfresh; simpl; by apply list_elem_of_further).
    assert (Hnotin : assoc_lookup param rest = None).
    { clear -Hnin. induction rest as [|[k v] rest IH]; [done|]. simpl in *.
      rewrite bool_decide_false by (intros ->; apply Hnin; left).
      apply IH. intros H. apply Hnin. by apply list_elem_of_further. }
    cbn [flat_loop] in Hr. cbn [assoc_lookup].
    destruct values as [l|s|n|b|l|]; simpl in Hr;
      try (rewrite (IH new Hnd Hrest Hr k);
           destruct (bool_decide_reflect (k = param)) as [->|]; [by rewrite Hnotin, Hpar|done]).
    unfold expected_entry.
    destruct (assoc_lookup "default" l) as [d|] eqn:Hd.
    + unfold contains in Hr. destruct (bool_decide (is_Some (assoc_lookup "explevel" l)));
        [|done].
      rewrite (IH _ Hnd (Hfresh' d) Hr k), lookup_dict_setitem.
      destruct (bool_decide_reflect (k = param)) as [->|]; [|done].
      by rewrite Hnotin, Hd.
    + destruct (flat_loop flat_yaml_cfg_val [] l) as [e|r'] eqn:Hl; [done|].
      rewrite (IH _ Hnd (Hfresh' (YMap r')) Hr k), lookup_dict_setitem.
      destruct (bool_decide_reflect (k = param)) as [->|]; [|done].
      rewrite Hnotin, Hd. unfold flat_yaml_cfg. simpl. by rewrite Hl.
Qed.

(** Claim C10 (amended). [flat_yaml_cfg] raises [ConfigurationError]
    exactly when some mapping it visits has ["default"] but no
    ["explevel"]: the parameters of the given mapping, and recursively the
    mappings without ["default"] (the contents of a mapping with
    ["default"] are not visited). Otherwise, for a mapping with distinct
    keys, the result maps a key whose value is a mapping with ["default"]
    to that default, a key whose value is a mapping without ["default"] to
    the nested dictionary [flat_yaml_cfg] gives for it, and has no entry
    for a key whose value is not a mapping. *)
Theorem flat_yaml_cfg_spec (cfg : list (string * YVal)) :
  is_error (flat_yaml_cfg cfg) = default_without_explevel (YMap cfg) /\
  (NoDup (map fst cfg) -> forall r, flat_yaml_cfg cfg = inr r ->
     forall k, assoc_lookup k r =
       match assoc_lookup k cfg with Some v => expected_entry v | None => None end).
Proof.
  split; [apply flat_yaml_cfg_val_error|].
  intros Hnd r Hr k. rewrite (flat_loop_result cfg [] r Hnd); [|done|done].
  by destruct (assoc_lookup k cfg).
Qed.

(** Claim C10: counterexample. The result is not flat: a section mapping
    without ["default"] becomes a nested dictionary, and its parameter
    [p] is not a key of the result. *)
Lemma flat_yaml_cfg_nests_sections :
  flat_yaml_cfg [("sec", YMap [("p", YMap [("default", YInt 1); ("explevel", YStr "easy")])])]
    = inr [("sec", YMap [("p", YInt 1)])] /\
  assoc_lookup "p" [("sec", YMap [("p", YInt 1)])] = None.
Proof. split; reflexivity. Qed.

End Yaml2CfgProofs.

(** * Further properties of the code *)

Module FlexrefMoreProofs.
Import Flexref FlexrefProofs.

Section Proofs.
Context {E : CNSEnv}.

Lemma generate_flexref_frame (idx : nat) (model : PDBFile) (step : path) (r : string)
    (d : path) (ambig : option string) (fs : FS) (p : path) :
  p <> inp_of step idx -> (generate_flexref idx model step r d ambig fs).2 !! p = fs !! p.
Proof. intros Hp. simpl. by rewrite lookup_insert_ne by congruence. Qed.

Lemma generate_flexref_text (idx : nat) (model : PDBFile) (step : path) (r : string)
    (d : path) (ambig : option string) (fs fs' : FS) :
  (generate_flexref idx model step r d ambig fs).2 !! inp_of step idx =
  (generate_flexref idx model step r d ambig fs').2 !! inp_of step idx.
Proof. simpl. by rewrite !lookup_insert_eq. Qed.

Lemma inp_of_inj (step : path) (i j : nat) : inp_of step i = inp_of step j -> i = j.
Proof. intros H. by apply (flexref_path_inj step i j ".inp" ".inp") in H as [? _]. Qed.

Lemma prepare_jobs_frame (m : HaddockModule) (ambig : option string) (idx : nat)
    (models : list PDBFile) (fs : FS) (p : path) :
  (forall i, i < length models -> p <> inp_of (module_path m) (idx + i)) ->
  (prepare_jobs m ambig idx models fs).2 !! p = fs !! p.
Proof.
  revert idx fs. induction models as [|model rest IH]; intros idx fs Hp; [done|].
  cbn [prepare_jobs].
  pose proof (generate_flexref_frame idx model (module_path m) (recipe_str m)
                (defaults m) ambig fs p) as Hf.
  destruct (generate_flexref idx model (module_path m) (recipe_str m) (defaults m) ambig fs)
    as [inp fs'] eqn:G. simpl in Hf.
  rewrite (prepare_jobs_spec m ambig (S idx) rest fs'). simpl.
  rewrite IH.
  - apply Hf. specialize (Hp 0). rewrite Nat.add_0_r in Hp. apply Hp. simpl. lia.
  - intros i Hi. replace (S idx + i) with (idx + S i) by lia. apply Hp. simpl. lia.
Qed.

Lemma prepare_jobs_text (m : HaddockModule) (ambig : option string) (idx : nat)
    (models : list PDBFile) (fs : FS) (i : nat) (model : PDBFile) :
  models !! i = Some model ->
  (prepare_jobs m ambig idx models fs).2 !! inp_of (module_path m) (idx + i) =
  (generate_flexref (idx + i) model (module_path m) (recipe_str m) (defaults m) ambig ∅).2
    !! inp_of (module_path m) (idx + i).
Proof.
  revert idx fs i. induction models as [|model0 rest IH]; intros idx fs i Hi; [done|].
  cbn [prepare_jobs].
  destruct (generate_flexref idx model0 (module_path m) (recipe_str m) (defaults m) ambig fs)
    as [inp fs'] eqn:G.
  rewrite (prepare_jobs_spec m ambig (S idx) rest fs'). simpl.
  destruct i as [|i].
  - simpl in Hi. injection Hi as ->. rewrite Nat.add_0_r.
    rewrite prepare_jobs_frame.
    + change fs' with (inp, fs').2. rewrite <- G. apply generate_flexref_text.
    + intros j Hj Heq. apply inp_of_inj in Heq. lia.
  - simpl in Hi. replace (idx + S i) with (S idx + i) by lia. by apply IH.
Qed.

Lemma prepare_jobs_same_fields (m1 m2 : HaddockModule) (ambig : option string) (idx : nat)
    (models : list PDBFile) (fs : FS) :
  module_path m1 = module_path m2 -> recipe_str m1 = recipe_str m2 ->
  defaults m1 = defaults m2 -> cns_folder_path m1 = cns_folder_path m2 ->
  prepare_jobs m1 ambig idx models fs = prepare_jobs m2 ambig idx models fs.
Proof.
  intros H1 H2 H3 H4. revert idx fs. induction models as [|model rest IH]; intros idx fs; [done|].
  cbn [prepare_jobs]. rewrite H1, H2, H3, H4.
  destruct (generate_flexref idx model (module_path m2) (recipe_str m2) (defaults m2) ambig fs)
    as [inp fs']. by rewrite IH.
Qed.

Lemma verify_outputs_same_path (m1 m2 : HaddockModule) (topo : list PSFFile)
    (refined : list path) (fs : FS) :
  module_path m1 = module_path m2 ->
  verify_outputs m1 topo refined fs = verify_outputs m2 topo refined fs.
Proof. intros H. unfold verify_outputs. by rewrite !check_outputs_spec, H. Qed.

(** Before the engine starts, [run] writes only the job inputs: the
    filesystem the engine receives differs from the initial one at the
    [flexref_i.inp] paths alone, and [flexref_i.inp] holds the text
    [generate_flexref] renders for the [i]-th PDB model, whatever the file
    held before. *)
Theorem run_writes_only_job_inputs (m : HaddockModule) (ambig : option string) (fs : FS) :
  let fs' := (prepare_jobs m ambig 0 (models_to_refine m) fs).2 in
  (forall p, (forall i, i < length (models_to_refine m) -> p <> inp_of (module_path m) i) ->
     fs' !! p = fs !! p) /\
  (forall i model, models_to_refine m !! i = Some model ->
     fs' !! inp_of (module_path m) i =
     (generate_flexref i model (module_path m) (recipe_str m) (defaults m) ambig ∅).2
       !! inp_of (module_path m) i).
Proof.
  split.
  - intros p Hp. apply prepare_jobs_frame. intros i Hi. apply Hp. done.
  - intros i model Hi. apply (prepare_jobs_text m ambig 0 _ fs i model Hi).
Qed.

(** Entries of the previous step's output that are not PDB files play no
    part: [run] behaves as if that output held its PDB files alone. *)
Theorem run_ignores_non_pdb_inputs (m : HaddockModule) (ambig : option string) (fs : FS) :
  run m ambig fs =
  run (mkHaddockModule (module_path m) (models_to_refine m) (recipe_str m) (defaults m)
         (cns_folder_path m)) ambig fs.
Proof.
  assert (Hf : models_to_refine (mkHaddockModule (module_path m) (models_to_refine m)
                 (recipe_str m) (defaults m) (cns_folder_path m)) = models_to_refine m).
  { unfold models_to_refine at 1. simpl. unfold models_to_refine.
    rewrite list_filter_filter. apply list_filter_iff. intros x. tauto. }
  set (m' := mkHaddockModule (module_path m) (models_to_refine m) (recipe_str m) (defaults m)
                (cns_folder_path m)) in *.
  unfold run. rewrite Hf. destruct (models_to_refine m) as [|first_model rest]; [done|].
  rewrite (prepare_jobs_same_fields m' m ambig 0 _ fs) by done.
  destruct (prepare_jobs m ambig 0 (first_model :: rest) fs) as [[jobs refined] fs'].
  by apply verify_outputs_same_path.
Qed.

End Proofs.
End FlexrefMoreProofs.

Module PyLibProofs.
Import PyLib.

Lemma py_bind_inr_inv {A B : Type} (m : py_error + A) (f : A -> py_error + B) (y : B) :
  (m ≫= f) = inr y -> exists x, m = inr x /\ f x = inr y.
Proof. destruct m as [e|x]; [done|]. intros H. by exists x. Qed.

Lemma py_bind_inr {A B : Type} (x : A) (f : A -> py_error + B) : (inr x ≫= f) = f x.
Proof. done. Qed.

Lemma py_bind_inl {A B : Type} (e : py_error) (f : A -> py_error + B) : (inl e ≫= f) = inl e.
Proof. done. Qed.

Lemma py_fmap_inr_inv {A B : Type} (m : py_error + A) (f : A -> B) (y : B) :
  (f <$> m) = inr y -> exists x, m = inr x /\ y = f x.
Proof. destruct m as [e|x]; [done|]. intros H. injection H as <-. by exists x. Qed.

Lemma str_app_nil_r (s : string) : s +:+ "" = s.
Proof. induction s as [|c s IH]; [done|]. change (String c (s +:+ "") = String c s). by rewrite IH. Qed.

Lemma str_app_assoc (a b c : string) : (a +:+ b) +:+ c = a +:+ b +:+ c.
Proof.
  induction a as [|x a IH]; [done|].
  change (String x ((a +:+ b) +:+ c) = String x (a +:+ b +:+ c)). by rewrite IH.
Qed.

Lemma list_ascii_of_string_app (a b : string) :
  String.list_ascii_of_string (a +:+ b) = app (String.list_ascii_of_string a) (String.list_ascii_of_string b).
Proof. induction a as [|c a IH]; [done|]. change (c :: String.list_ascii_of_string (a +:+ b) = c :: app (String.list_ascii_of_string a) (String.list_ascii_of_string b)). by rewrite IH. Qed.

Lemma concat_elem_split (sep x : string) (l : list string) :
  x ∈ l -> exists a b, String.concat sep l = a +:+ x +:+ b.
Proof.
  induction l as [|y r IH]; intros Hx; [by apply elem_of_nil in Hx|].
  apply elem_of_cons in Hx as [->|Hx].
  - destruct r as [|z r].
    + exists "", "". change (y = y +:+ ""). by rewrite str_app_nil_r.
    + by exists "", (sep +:+ String.concat sep (z :: r)).
  - destruct (IH Hx) as (a & b & Hab). destruct r as [|z r]; [by apply elem_of_nil in Hx|].
    exists (y +:+ sep +:+ a), b. change (String.concat sep (y :: z :: r))
      with (y +:+ sep +:+ String.concat sep (z :: r)).
    rewrite Hab. by rewrite !str_app_assoc.
Qed.

Section Sorting.
Context {A : Type}.

Lemma sort_insert_perm (x : string * A) (l : list (string * A)) : sort_insert x l ≡ₚ x :: l.
Proof.
  induction l as [|y r IH]; [done|]. cbn [sort_insert].
  destruct (String.leb x.1 y.1); [done|]. rewrite IH. apply Permutation_swap.
Qed.

Lemma sorted_by_key_perm (l : list (string * A)) : sorted_by_key l ≡ₚ l.
Proof.
  induction l as [|x r IH]; [done|]. unfold sorted_by_key. cbn [foldr].
  rewrite sort_insert_perm. fold (sorted_by_key r). by rewrite IH.
Qed.

Lemma key_le_trans : Transitive (fun x y : string * A => String.le x.1 y.1).
Proof. intros x y z Hxy Hyz. by trans y.1. Qed.

Lemma sort_insert_HdRel (x y : string * A) (l : list (string * A)) :
  String.le y.1 x.1 -> HdRel (fun a b : string * A => String.le a.1 b.1) y l ->
  HdRel (fun a b : string * A => String.le a.1 b.1) y (sort_insert x l).
Proof.
  intros Hyx Hl. destruct l as [|z r]; cbn [sort_insert].
  - by constructor.
  - destruct (String.leb x.1 z.1); constructor; [done|]. by inversion Hl.
Qed.

Lemma sort_insert_sorted (x : string * A) (l : list (string * A)) :
  Sorted (fun a b : string * A => String.le a.1 b.1) l ->
  Sorted (fun a b : string * A => String.le a.1 b.1) (sort_insert x l).
Proof.
  induction l as [|y r IH]; intros Hs; cbn [sort_insert]; [by repeat constructor|].
  destruct (String.leb x.1 y.1) eqn:Hxy.
  - constructor; [done|]. constructor. by apply Is_true_true_2.
  - inversion Hs as [|? ? Hr Hhd]; subst. constructor; [by apply IH|].
    apply sort_insert_HdRel; [|done].
    destruct (total String.le x.1 y.1) as [Hle|Hle]; [|done].
    apply Is_true_true_1 in Hle. unfold String.le in Hle. congruence.
Qed.

Lemma sorted_by_key_sorted (l : list (string * A)) :
  Sorted (fun a b : string * A => String.le a.1 b.1) (sorted_by_key l).
Proof.
  induction l as [|x r IH]; [constructor|]. unfold sorted_by_key. cbn [foldr].
  by apply sort_insert_sorted.
Qed.

Lemma NoDup_keys_eq (l : list (string * A)) (x y : string * A) :
  NoDup l.*1 -> x ∈ l -> y ∈ l -> x.1 = y.1 -> x = y.
Proof.
  induction l as [|z r IH]; intros Hnd Hx Hy Hk; [by apply elem_of_nil in Hx|].
  rewrite fmap_cons in Hnd. apply NoDup_cons in Hnd as [Hz Hnd].
  apply elem_of_cons in Hx as [->|Hx]; apply elem_of_cons in Hy as [->|Hy]; try done.
  - destruct Hz. rewrite Hk. by apply list_elem_of_fmap_2.
  - destruct Hz. rewrite <- Hk. by apply list_elem_of_fmap_2.
  - by apply IH.
Qed.

(** Sorting by key does not depend on the order of the items when keys
    are unique. *)
Lemma sorted_by_key_perm_eq (l1 l2 : list (string * A)) :
  l1 ≡ₚ l2 -> NoDup l1.*1 -> sorted_by_key l1 = sorted_by_key l2.
Proof.
  intros Hp Hnd.
  apply (@Sorted_unique_strong _ (fun a b : string * A => String.le a.1 b.1) key_le_trans);
    [|apply sorted_by_key_sorted..|by rewrite !sorted_by_key_perm].
  intros x1 x2 Hx1 Hx2 H12 H21. apply (NoDup_keys_eq l1); [done| | |].
  - by rewrite <- (sorted_by_key_perm l1).
  - by rewrite Hp, <- (sorted_by_key_perm l2).
  - by apply (anti_symm String.le).
Qed.

Lemma sort_insert_split (x : string * A) (l : list (string * A)) :
  exists a b, sort_insert x l = app a (x :: b) /\ l = app a b.
Proof.
  induction l as [|y r IH]; cbn [sort_insert].
  - by exists [], [].
  - destruct (String.leb x.1 y.1).
    + by exists [], (y :: r).
    + destruct IH as (a & b & -> & ->). by exists (y :: a), b.
Qed.

End Sorting.

End PyLibProofs.

Module Yaml2CfgMoreProofs.
Import Yaml2Cfg PyLib Yaml2CfgMore PyLibProofs.

Lemma str_startswith_cons_ne (c d : ascii) (s p : string) :
  c <> d -> str_startswith (String c s) (String d p) = false.
Proof. intros H. simpl. by rewrite bool_decide_false by congruence. Qed.

Lemma existsb_str_elem (k : string) (xs : list YVal) :
  existsb (fun x => match x with YStr s => bool_decide (s = k) | _ => false end) xs = true <->
  YStr k ∈ xs.
Proof.
  induction xs as [|x xs IH]; simpl.
  - split; [done|]. intros H. by apply elem_of_nil in H.
  - rewrite orb_true_iff, IH, elem_of_cons. split.
    + intros [H|H]; [|by right]. left. destruct x; try done. apply bool_decide_eq_true in H. by subst.
    + intros [<-|H]; [|by right]. left. by apply bool_decide_eq_true.
Qed.

Lemma find_incompatible_loop_error (acc items : list (string * YVal)) :
  is_error (find_incompatible_loop acc items) = true <->
  exists node v, (node, v) ∈ items /\
    match v with
    | YMap _ => False
    | YStr s => str_contains "incompatible" s = true
    | YList xs => YStr "incompatible" ∈ xs
    | _ => True
    end.
Proof.
  revert acc. induction items as [|[node v] rest IH]; intros acc.
  - simpl. split; [done|]. intros (n & v & H & _). by apply elem_of_nil in H.
  - assert (Hex : (exists n w, (n, w) ∈ (node, v) :: rest /\
        match w with
        | YMap _ => False | YStr s => str_contains "incompatible" s = true
        | YList xs => YStr "incompatible" ∈ xs | _ => True
        end) <->
      (match v with
       | YMap _ => False | YStr s => str_contains "incompatible" s = true
       | YList xs => YStr "incompatible" ∈ xs | _ => True
       end) \/
      (exists n w, (n, w) ∈ rest /\
        match w with
        | YMap _ => False | YStr s => str_contains "incompatible" s = true
        | YList xs => YStr "incompatible" ∈ xs | _ => True
        end)).
    { split.
      - intros (n & w & Hin & Hw). apply elem_of_cons in Hin as [Heq|Hin].
        + injection Heq as -> ->. by left.
        + right. by exists n, w.
      - intros [Hv|(n & w & Hin & Hw)].
        + exists node, v. split; [apply elem_of_cons; by left|done].
        + exists n, w. split; [apply elem_of_cons; by right|done]. }
    rewrite Hex. destruct v as [l|s|n|b|xs|]; simpl.
    + destruct (assoc_lookup "incompatible" l) eqn:Hl; simpl; rewrite IH; tauto.
    + destruct (str_contains "incompatible" s) eqn:Hs; simpl; [|rewrite IH]; intuition congruence.
    + tauto.
    + tauto.
    + destruct (existsb _ xs) eqn:Hx.
      * simpl. apply existsb_str_elem in Hx. tauto.
      * rewrite IH. split; [tauto|]. intros [H|H]; [|done].
        apply existsb_str_elem in H. congruence.
    + tauto.
Qed.

Lemma dict_setitem_keys (k : string) (v : YVal) (d : list (string * YVal)) :
  (dict_setitem k v d).*1 = if bool_decide (k ∈ d.*1) then d.*1 else app d.*1 [k].
Proof.
  induction d as [|[k' v'] r IH]; [done|]. cbn [dict_setitem]. rewrite fmap_cons. simpl fst.
  destruct (decide (k = k')) as [->|Hne].
  - rewrite bool_decide_true by done. rewrite bool_decide_true by (apply elem_of_cons; by left).
    rewrite fmap_cons. done.
  - rewrite bool_decide_false by done. rewrite fmap_cons, IH. simpl fst.
    destruct (decide (k ∈ r.*1)) as [Hin|Hin].
    + rewrite bool_decide_true by done. rewrite bool_decide_true by (apply elem_of_cons; by right).
      done.
    + rewrite bool_decide_false by done.
      rewrite bool_decide_false by (rewrite elem_of_cons; tauto). done.
Qed.

Lemma dict_setitem_fresh (k : string) (v : YVal) (d : list (string * YVal)) :
  k ∉ d.*1 -> dict_setitem k v d = app d [(k, v)].
Proof.
  induction d as [|[k' v'] r IH]; intros Hk; [done|]. cbn [dict_setitem].
  rewrite fmap_cons, elem_of_cons in Hk. simpl fst in Hk.
  rewrite bool_decide_false by tauto. rewrite IH by tauto. done.
Qed.

Lemma dict_setitem_NoDup (k : string) (v : YVal) (d : list (string * YVal)) :
  NoDup d.*1 -> NoDup (dict_setitem k v d).*1.
Proof.
  intros H. rewrite dict_setitem_keys. case_bool_decide; [done|].
  apply NoDup_app. split; [done|]. split; [|apply NoDup_singleton].
  intros x Hx Hx'. apply list_elem_of_singleton in Hx'. by subst.
Qed.

Lemma flat_loop_NoDup (rec : YVal -> ConfigurationError + list (string * YVal))
    (new items r : list (string * YVal)) :
  NoDup new.*1 -> flat_loop rec new items = inr r -> NoDup r.*1.
Proof.
  revert new. induction items as [|[param values] rest IH]; intros new Hnew H.
  - simpl in H. by injection H as <-.
  - simpl in H. destruct (getitem values "default") as [nv| |].
    + destruct (contains values "explevel"); [|done].
      eapply IH; [|exact H]. by apply dict_setitem_NoDup.
    + destruct (rec values) as [e|nv]; [done|].
      eapply IH; [|exact H]. by apply dict_setitem_NoDup.
    + by eapply IH.
Qed.

Lemma dict_update_fresh (acc r : list (string * YVal)) :
  NoDup (app acc r).*1 -> dict_update acc r = app acc r.
Proof.
  revert acc. induction r as [|[k v] r IH]; intros acc H.
  - by rewrite app_nil_r.
  - unfold dict_update. simpl. rewrite dict_setitem_fresh.
    + fold (dict_update (app acc [(k, v)]) r). rewrite IH.
      * by rewrite <- app_assoc.
      * by rewrite <- app_assoc.
    + rewrite fmap_app in H. simpl in H. apply NoDup_app in H as (_ & H & _).
      intros Hk. apply (H k Hk). apply elem_of_cons. by left.
Qed.

Lemma find_incompatible_loop_ok (acc items : list (string * YVal)) :
  NoDup items.*1 -> (forall k, k ∈ items.*1 -> k ∉ acc.*1) ->
  Forall (fun nv => match nv.2 with
                    | YMap _ => True
                    | YStr s => str_contains "incompatible" s = false
                    | YList xs => YStr "incompatible" ∉ xs
                    | _ => False
                    end) items ->
  find_incompatible_loop acc items =
    inr (app acc (omap (fun nv => match nv.2 with
                                  | YMap l => pair nv.1 <$> assoc_lookup "incompatible" l
                                  | _ => None
                                  end) items)).
Proof.
  revert acc. induction items as [|[node v] rest IH]; intros acc Hnd Hfresh Hok.
  - simpl. by rewrite app_nil_r.
  - rewrite fmap_cons in Hnd, Hfresh. simpl fst in Hnd, Hfresh. apply NoDup_cons in Hnd as [Hn Hnd].
    apply Forall_cons in Hok as [Hv Hok]. simpl in Hv.
    assert (Hfr : forall k, k ∈ rest.*1 -> k ∉ acc.*1)
      by (intros k Hk; apply Hfresh, elem_of_cons; by right).
    destruct v as [l|s|n|b|xs|]; try done; cbn [find_incompatible_loop py_in omap]; simpl snd.
    + destruct (assoc_lookup "incompatible" l) as [w|] eqn:Hl; simpl.
      * rewrite Hl. rewrite dict_setitem_fresh by (apply Hfresh, elem_of_cons; by left).
        rewrite IH; [by rewrite <- app_assoc|done| |done].
        intros k Hk. rewrite fmap_app, elem_of_app. intros [Hk'|Hk'].
        -- exact (Hfr k Hk Hk').
        -- simpl in Hk'. apply list_elem_of_singleton in Hk'. subst. done.
      * rewrite IH; [by rewrite Hl|done|exact Hfr|done].
    + rewrite Hv. rewrite IH; [done|done|exact Hfr|done].
    + assert (Hx : existsb (fun x => match x with YStr s => bool_decide (s = "incompatible")
                                      | _ => false end) xs = false).
      { apply not_true_iff_false. rewrite existsb_str_elem. done. }
      rewrite Hx. rewrite IH; [done|done|exact Hfr|done].
Qed.

(** For a configuration whose node values are of the kinds [YVal] models
    (mappings, strings, integers, booleans, lists and [None]; floats,
    dates, bytes and sets are not modelled),
    [find_incompatible_parameters] raises exactly when some top-level node
    is an int, a bool or [None] (the [in] test raises [TypeError]), a string
    containing ["incompatible"] or a list holding the string
    ["incompatible"] (the [in] test passes and the indexing raises). *)
Theorem find_incompatible_parameters_raises (config : list (string * YVal)) :
  is_error (find_incompatible_parameters config) = true <->
  exists node v, (node, v) ∈ config /\
    match v with
    | YMap _ => False
    | YStr s => str_contains "incompatible" s = true
    | YList xs => YStr "incompatible" ∈ xs
    | _ => True
    end.
Proof. apply find_incompatible_loop_error. Qed.

(** On a config with distinct node names none of which makes it raise,
    [find_incompatible_parameters] maps each mapping node holding an
    ["incompatible"] key to that key's value, in the config's order, and
    nothing else. *)
Theorem find_incompatible_parameters_result (config : list (string * YVal)) :
  NoDup config.*1 ->
  Forall (fun nv => match nv.2 with
                    | YMap _ => True
                    | YStr s => str_contains "incompatible" s = false
                    | YList xs => YStr "incompatible" ∉ xs
                    | _ => False
                    end) config ->
  find_incompatible_parameters config =
    inr (omap (fun nv => match nv.2 with
                         | YMap l => pair nv.1 <$> assoc_lookup "incompatible" l
                         | _ => None
                         end) config).
Proof.
  intros Hnd Hok. unfold find_incompatible_parameters.
  rewrite find_incompatible_loop_ok; [done|done| |done].
  intros k _ Hk. by apply elem_of_nil in Hk.
Qed.

(** [read_from_yaml_config]: with [default_only] its copy is exactly what
    [flat_yaml_cfg] returns (same keys in the same order, or the same
    error), because the flattened dict never repeats a key; without it the
    loaded mapping comes back unchanged. *)
Theorem read_from_yaml_config_spec (ycfg : list (string * YVal)) :
  read_from_yaml_config ycfg true = flat_yaml_cfg ycfg /\
  read_from_yaml_config ycfg false = inr ycfg /\
  (forall r, flat_yaml_cfg ycfg = inr r -> NoDup r.*1).
Proof.
  assert (Hnd : forall r, flat_yaml_cfg ycfg = inr r -> NoDup r.*1).
  { intros r H. unfold flat_yaml_cfg in H. simpl in H.
    eapply flat_loop_NoDup; [|exact H]. constructor. }
  split; [|split; [done|exact Hnd]].
  unfold read_from_yaml_config. destruct (flat_yaml_cfg ycfg) as [e|flat] eqn:Hf; [done|].
  rewrite dict_update_fresh; [done|]. by apply Hnd.
Qed.

Section Text.
Context {PF : PyFormat} {EL : ExpertLevels}.

Lemma enum_dict_None (i : nat) (l : list string) (d : gmap string nat) (k : string) :
  enum_dict i l d !! k = None <-> ((k ∉ l) /\ d !! k = None).
Proof.
  revert i d. induction l as [|x r IH]; intros i d; simpl.
  - split; [intros H; split; [apply not_elem_of_nil|]|intros [_ H]]; done.
  - rewrite IH, not_elem_of_cons, lookup_insert_None. naive_solver.
Qed.

Lemma cfg_text_loop_skip (rec : option string -> YVal -> py_error + string) (idx : nat)
    (und : list string) (module : option string) (pre post : list (string * YVal))
    (name : string) (l : list (string * YVal)) (d lv : YVal) (i : nat) :
  assoc_lookup "default" l = Some d ->
  assoc_lookup "explevel" l = Some lv ->
  level_index lv = inr i ->
  idx < i ->
  cfg_text_loop rec idx und module (app pre ((name, YMap l) :: post))
  = cfg_text_loop rec idx und module (app pre post).
Proof.
  intros Hd Hlv Hi Hlt. induction pre as [|[n v] pre IH].
  - cbn [List.app cfg_text_loop]. rewrite Hd. unfold getm. rewrite Hlv.
    rewrite !py_bind_inr, Hi, py_bind_inr.
    by replace (Nat.ltb idx i) with true by (symmetry; apply Nat.ltb_lt; lia).
  - cbn [List.app cfg_text_loop]. by rewrite IH.
Qed.

Lemma cfg_text_loop_ok (rec : option string -> YVal -> py_error + string) (idx : nat)
    (und : list string) (module : option string) (items : list (string * YVal))
    (ps : list string) :
  cfg_text_loop rec idx und module items = inr ps ->
  forall name l d, (name, YMap l) ∈ items -> assoc_lookup "default" l = Some d ->
  exists lv i, assoc_lookup "explevel" l = Some lv /\ level_index lv = inr i /\
    (i <= idx -> (exists ty, assoc_lookup "type" l = Some ty) /\
                 param_line name d (param_comments und l) ∈ ps).
Proof.
  revert ps. induction items as [|[n v] rest IH]; intros ps H name l d Hin Hd.
  { by apply elem_of_nil in Hin. }
  cbn [cfg_text_loop] in H.
  destruct v as [l0| | | | |];
    try (apply elem_of_cons in Hin as [Heq|Hin]; [discriminate|by eapply IH]).
  destruct (assoc_lookup "default" l0) as [d0|] eqn:Hd0.
  - apply py_bind_inr_inv in H as (lv0 & Hlv0 & H).
    apply py_bind_inr_inv in H as (i0 & Hi0 & H).
    unfold getm in Hlv0. destruct (assoc_lookup "explevel" l0) as [lv0'|] eqn:Hlv0'; [|done].
    injection Hlv0 as ->.
    destruct (Nat.ltb idx i0) eqn:Hlt.
    + apply elem_of_cons in Hin as [Heq|Hin].
      * injection Heq as -> ->. rewrite Hd0 in Hd. injection Hd as ->.
        exists lv0, i0. split; [done|]; split; [done|]. intros Hle.
        apply Nat.ltb_lt in Hlt. lia.
      * by eapply IH.
    + apply py_bind_inr_inv in H as (ty & Hty & H).
      apply py_bind_inr_inv in H as (ps' & Hps' & H). injection H as <-.
      apply elem_of_cons in Hin as [Heq|Hin].
      * injection Heq as -> ->. rewrite Hd0 in Hd. injection Hd as ->.
        exists lv0, i0. split; [done|]; split; [done|]. intros _. split; [|left].
        revert Hty. unfold getm. case_match; [by eauto|done].
      * destruct (IH ps' Hps' name l d Hin Hd) as (lv & i & H1 & H2 & H3).
        exists lv, i. split; [done|]; split; [done|]. intros Hle. split; [apply (H3 Hle)|].
        right. apply elem_of_app. right. apply (H3 Hle).
  - apply py_bind_inr_inv in H as (sub & _ & H).
    apply py_bind_inr_inv in H as (ps' & Hps' & H). injection H as <-.
    apply elem_of_cons in Hin as [Heq|Hin].
    + injection Heq as -> ->. congruence.
    + destruct (IH ps' Hps' name l d Hin Hd) as (lv & i & H1 & H2 & H3).
      exists lv, i. split; [done|]; split; [done|]. intros Hle. split; [apply (H3 Hle)|].
      do 3 right. apply (H3 Hle).
Qed.

Lemma _yaml2cfg_text_unfold (items : list (string * YVal)) (module : option string)
    (explevel : string) (details : bool) :
  _yaml2cfg_text items module explevel details =
  match exp_levels !! explevel with
  | None => inl PyKeyError
  | Some j => String.concat linesep <$>
      cfg_text_loop (fun m v => _yaml2cfg_text_val v m explevel details) j
        (undesired details) module items
  end.
Proof. done. Qed.

(** An expert level that is neither one of [config_expert_levels] nor
    ["all"] nor the hidden level makes [_yaml2cfg_text] and [yaml2cfg_text]
    raise [KeyError], whatever the configuration. *)
Theorem yaml2cfg_text_unknown_level (ymlcfg : list (string * YVal)) (module : option string)
    (explevel : string) (details : bool) :
  explevel ∉ app config_expert_levels ["all"; _hidden_level] ->
  _yaml2cfg_text ymlcfg module explevel details = inl PyKeyError /\
  yaml2cfg_text ymlcfg module explevel details = inl PyKeyError.
Proof.
  intros Hn.
  assert (Hj : exp_levels !! explevel = None) by (apply enum_dict_None; split; [done|apply lookup_empty]).
  assert (H1 : _yaml2cfg_text ymlcfg module explevel details = inl PyKeyError)
    by (rewrite _yaml2cfg_text_unfold, Hj; done).
  split; [done|]. unfold yaml2cfg_text. by rewrite H1.
Qed.

(** A parameter whose expert level is above the requested one is left out
    of the text: removing it from the configuration gives the same result. *)
Theorem yaml2cfg_text_omits_higher_level (pre post : list (string * YVal)) (name : string)
    (l : list (string * YVal)) (d lv : YVal) (i j : nat) (module : option string)
    (explevel : string) (details : bool) :
  exp_levels !! explevel = Some j ->
  assoc_lookup "default" l = Some d ->
  assoc_lookup "explevel" l = Some lv ->
  level_index lv = inr i ->
  j < i ->
  _yaml2cfg_text (app pre ((name, YMap l) :: post)) module explevel details
  = _yaml2cfg_text (app pre post) module explevel details.
Proof.
  intros Hj Hd Hlv Hi Hlt. rewrite !_yaml2cfg_text_unfold, Hj.
  by rewrite (cfg_text_loop_skip _ j _ module pre post name l d lv i Hd Hlv Hi Hlt).
Qed.

(** When [_yaml2cfg_text] succeeds, every top-level parameter with a
    default has a known expert level; if that level is not above the
    requested one, the parameter has a [type] and its line
    [name = value  # comments] is part of the text. *)
Theorem yaml2cfg_text_shows_param (ymlcfg : list (string * YVal)) (module : option string)
    (explevel : string) (details : bool) (text name : string) (l : list (string * YVal))
    (d : YVal) :
  _yaml2cfg_text ymlcfg module explevel details = inr text ->
  (name, YMap l) ∈ ymlcfg ->
  assoc_lookup "default" l = Some d ->
  exists j lv i, exp_levels !! explevel = Some j /\ assoc_lookup "explevel" l = Some lv /\
    level_index lv = inr i /\
    (i <= j -> (exists ty, assoc_lookup "type" l = Some ty) /\
       exists a b, text = a +:+ param_line name d (param_comments (undesired details) l) +:+ b).
Proof.
  intros H Hin Hd. rewrite _yaml2cfg_text_unfold in H.
  destruct (exp_levels !! explevel) as [j|] eqn:Hj; [|done].
  apply py_fmap_inr_inv in H as (ps & Hps & ->).
  destruct (cfg_text_loop_ok _ _ _ _ _ _ Hps name l d Hin Hd) as (lv & i & H1 & H2 & H3).
  exists j, lv, i. split; [done|]; split; [done|]; split; [done|]. intros Hle.
  split; [apply (H3 Hle)|]. apply concat_elem_split, (H3 Hle).
Qed.

Lemma enum_dict_notin (i : nat) (l : list string) (d : gmap string nat) (k : string) :
  k ∉ l -> enum_dict i l d !! k = d !! k.
Proof.
  revert i d. induction l as [|x r IH]; intros i d Hk; [done|]. cbn [enum_dict].
  apply not_elem_of_cons in Hk as [Hx Hr]. rewrite IH by done.
  by rewrite lookup_insert_ne by congruence.
Qed.

Lemma enum_dict_index (i : nat) (l : list string) (d : gmap string nat) (k : nat) (x : string) :
  NoDup l -> l !! k = Some x -> enum_dict i l d !! x = Some (i + k).
Proof.
  revert i d k. induction l as [|y r IH]; intros i d k Hnd Hk; [done|].
  apply NoDup_cons in Hnd as [Hy Hnd]. cbn [enum_dict]. destruct k as [|k].
  - injection Hk as ->. rewrite enum_dict_notin by done.
    rewrite lookup_insert_eq. f_equal. lia.
  - cbn in Hk. rewrite (IH (S i) _ k) by done. f_equal. lia.
Qed.

(** Asking for ["all"] shows every level but the hidden one, when the
    levels are distinct: a top-level parameter at the hidden level is left
    out of the text, as if it were not in the configuration; one at any
    other level (one of [config_expert_levels], or "all" itself) has a
    [type], and its line [name = value  # comments] is part of the text
    whenever [_yaml2cfg_text] succeeds. *)
Theorem yaml2cfg_text_all_levels (name : string) (l : list (string * YVal)) (d : YVal)
    (lv : string) (module : option string) (details : bool) :
  NoDup (app config_expert_levels ["all"; _hidden_level]) ->
  assoc_lookup "default" l = Some d ->
  assoc_lookup "explevel" l = Some (YStr lv) ->
  (lv = _hidden_level -> forall pre post,
     _yaml2cfg_text (app pre ((name, YMap l) :: post)) module "all" details
     = _yaml2cfg_text (app pre post) module "all" details) /\
  (lv ∈ app config_expert_levels ["all"] -> forall ymlcfg text,
     _yaml2cfg_text ymlcfg module "all" details = inr text -> (name, YMap l) ∈ ymlcfg ->
     (exists ty, assoc_lookup "type" l = Some ty) /\
     exists a b, text = a +:+ param_line name d (param_comments (undesired details) l) +:+ b).
Proof.
  intros Hnd Hd Hlv. set (n := length config_expert_levels).
  assert (Hall : exp_levels !! "all" = Some n).
  { unfold exp_levels. rewrite (enum_dict_index 0 _ ∅ n "all"); [done|done|].
    rewrite lookup_app_r by lia. by rewrite Nat.sub_diag. }
  split.
  - intros -> pre post.
    assert (Hhid : level_index (YStr _hidden_level) = inr (S n)).
    { unfold level_index, exp_levels.
      rewrite (enum_dict_index 0 _ ∅ (S n) _hidden_level); [done|done|].
      rewrite lookup_app_r by lia. by replace (S n - length config_expert_levels) with 1 by lia. }
    rewrite !_yaml2cfg_text_unfold, Hall.
    by rewrite (cfg_text_loop_skip _ n _ module pre post name l d (YStr _hidden_level) (S n) Hd Hlv Hhid)
      by lia.
  - intros Hin ymlcfg text H Hmem. rewrite _yaml2cfg_text_unfold, Hall in H.
    apply py_fmap_inr_inv in H as (ps & Hps & ->).
    destruct (cfg_text_loop_ok _ _ _ _ _ _ Hps name l d Hmem Hd) as (lv' & i & H1 & H2 & H3).
    rewrite Hlv in H1. injection H1 as <-.
    apply list_elem_of_lookup in Hin as [k Hk].
    assert (Hkn : k <= n).
    { apply lookup_lt_Some in Hk. rewrite length_app in Hk. simpl in Hk. lia. }
    assert (Hlk : level_index (YStr lv) = inr k).
    { unfold level_index, exp_levels. rewrite (enum_dict_index 0 _ ∅ k lv); [done|done|].
      replace (app config_expert_levels ["all"; _hidden_level])
        with (app (app config_expert_levels ["all"]) [_hidden_level])
        by (by rewrite <- app_assoc).
      by apply lookup_app_l_Some. }
    rewrite Hlk in H2. injection H2 as <-.
    split; [apply (H3 Hkn)|]. apply concat_elem_split, (H3 Hkn).
Qed.

End Text.

End Yaml2CfgMoreProofs.

Module RunHaddockProofs.
Import PyLib RunHaddock PyLibProofs.

Lemma str_startswith_dot_cns (c : ascii) (s : string) :
  c <> "."%char -> str_startswith (String c s) ".cns" = false.
Proof. intros Hc. cbn [str_startswith]. by rewrite bool_decide_eq_false_2 by congruence. Qed.

Lemma str_contains_cns_prefix (a s : string) :
  "."%char ∉ String.list_ascii_of_string a ->
  str_contains ".cns" (a +:+ s) = str_contains ".cns" s.
Proof.
  induction a as [|c a IH]; intros Ha; [done|].
  change (String c a +:+ s) with (String c (a +:+ s)).
  apply not_elem_of_cons in Ha as [Hc Ha].
  change (str_contains ".cns" (String c (a +:+ s)))
    with (str_startswith (String c (a +:+ s)) ".cns" || str_contains ".cns" (a +:+ s)).
  rewrite str_startswith_dot_cns by done. by apply IH.
Qed.

Section Stages.
Context {SE : StageEnv}.

(** A recipe given by name (not ["default"]) decides how each stage ends
    by its name alone: a name containing [".cns"] runs the stage's recipe
    from its template folder and returns the recipe's files; any other
    name prints an error and exits, since no module is supported. Whether
    the recipe file exists only changes what is printed. *)
Theorem stage_outcome_by_recipe_name (recipe_name : string)
    (model_dic : list (string * list string)) (model_list1 model_listw : list string) :
  recipe_name <> "default" ->
  snd <$> run_it0 recipe_name model_dic =
    inr (if str_contains ".cns" recipe_name
         then StageDone (rigid_body_run ("rigid_body/template/" +:+ recipe_name) model_dic)
         else StageExit) /\
  snd <$> run_it1 recipe_name model_list1 =
    inr (if str_contains ".cns" recipe_name
         then StageDone (semi_flexible_run ("semi_flexible/template/" +:+ recipe_name) model_list1)
         else StageExit) /\
  snd <$> run_itw recipe_name model_listw =
    inr (if str_contains ".cns" recipe_name
         then StageDone (water_refinement_run ("water_refinement/template/" +:+ recipe_name) model_listw)
         else StageExit).
Proof.
  intros Hn. unfold run_it0, run_it1, run_itw, run_stage.
  rewrite !bool_decide_eq_false_2 by done. rewrite !py_bind_inr.
  rewrite !str_contains_cns_prefix by (apply (bool_decide_unpack _); vm_compute; exact I).
  split_and!; destruct (str_contains ".cns" recipe_name); cbn [negb];
    rewrite ?bool_decide_eq_false_2 by (intros Hin; by apply elem_of_nil in Hin); done.
Qed.

End Stages.

Lemma py_slice_upto_prefix {A : Type} (l : list A) (n : Z) :
  exists rest, l = app (py_slice_upto l n) rest.
Proof. unfold py_slice_upto. destruct (Z.ltb n 0); eexists; symmetry; apply take_drop. Qed.

Lemma py_slice_upto_length {A : Type} (l : list A) (n : Z) :
  length (py_slice_upto l n) =
  if Z.ltb n 0 then length l - Z.to_nat (- n) else Nat.min (Z.to_nat n) (length l).
Proof.
  unfold py_slice_upto. destruct (Z.ltb n 0) eqn:Hn; rewrite length_take; [|done].
  apply Z.ltb_lt in Hn. lia.
Qed.

(** The model selection between the stages: both warnings are printed
    exactly when the semi-flexible sampling is above the rigid-body one
    (the water refinement sampling plays no part); the semi-flexible stage
    gets the first [semiflex_sampling] ranked rigid-body complexes (all but
    the last [-semiflex_sampling] for a negative value), the water
    refinement stage the first [waterref_sampling] semi-flexible
    complexes, and its output is what the water refinement returns. *)
Theorem select_models_spec (rigid_complexes : list string)
    (rigid_sampling semiflex_sampling waterref_sampling : Z)
    (it1 itw : list string -> list string) :
  let s := select_models rigid_complexes rigid_sampling semiflex_sampling waterref_sampling it1 itw in
  length (warnings s) = (if Z.gtb semiflex_sampling rigid_sampling then 4 else 0) /\
  (exists rest, rigid_complexes = app (semi_flexible_input s) rest) /\
  length (semi_flexible_input s) =
    (if Z.ltb semiflex_sampling 0 then length rigid_complexes - Z.to_nat (- semiflex_sampling)
     else Nat.min (Z.to_nat semiflex_sampling) (length rigid_complexes)) /\
  (exists rest, it1 (semi_flexible_input s) = app (water_refinement_input s) rest) /\
  length (water_refinement_input s) =
    (if Z.ltb waterref_sampling 0
     then length (it1 (semi_flexible_input s)) - Z.to_nat (- waterref_sampling)
     else Nat.min (Z.to_nat waterref_sampling) (length (it1 (semi_flexible_input s)))) /\
  water_refinement_complexes s = itw (water_refinement_input s).
Proof.
  cbn zeta. unfold select_models. cbn [warnings semi_flexible_input water_refinement_input
    water_refinement_complexes].
  split_and!.
  - by destruct (Z.gtb semiflex_sampling rigid_sampling).
  - apply py_slice_upto_prefix.
  - apply py_slice_upto_length.
  - apply py_slice_upto_prefix.
  - apply py_slice_upto_length.
  - done.
Qed.

Lemma py_split_go_nosep (c : ascii) (cur s : string) :
  c ∉ String.list_ascii_of_string s -> py_split_go c cur s = [cur +:+ s].
Proof.
  revert cur. induction s as [|d s IH]; intros cur Hs; cbn [py_split_go].
  - by rewrite str_app_nil_r.
  - apply not_elem_of_cons in Hs as [Hd Hs].
    rewrite bool_decide_eq_false_2 by congruence. rewrite IH by done.
    by rewrite str_app_assoc.
Qed.

Lemma py_split_go_sep (c : ascii) (cur x y : string) :
  c ∉ String.list_ascii_of_string x ->
  py_split_go c cur (x +:+ String c y) = (cur +:+ x) :: py_split_go c "" y.
Proof.
  revert cur. induction x as [|d x IH]; intros cur Hx.
  - change ("" +:+ String c y) with (String c y). cbn [py_split_go].
    rewrite bool_decide_eq_true_2 by done. by rewrite str_app_nil_r.
  - apply not_elem_of_cons in Hx as [Hd Hx].
    change (String d x +:+ String c y) with (String d (x +:+ String c y)).
    cbn [py_split_go]. rewrite bool_decide_eq_false_2 by congruence. rewrite IH by done.
    by rewrite str_app_assoc.
Qed.

Lemma py_split_go_nonempty (c : ascii) (cur s : string) : py_split_go c cur s <> [].
Proof.
  revert cur. induction s as [|d s IH]; intros cur; cbn [py_split_go]; [done|].
  case_bool_decide; [done|apply IH].
Qed.

Lemma string_first_occurrence (c : ascii) (s : string) :
  c ∈ String.list_ascii_of_string s ->
  exists x y, s = x +:+ String c y /\ c ∉ String.list_ascii_of_string x.
Proof.
  induction s as [|d s IH]; intros Hin; [by apply elem_of_nil in Hin|].
  destruct (decide (d = c)) as [->|Hd].
  - exists "", s. split; [done|]. apply not_elem_of_nil.
  - apply elem_of_cons in Hin as [->|Hin]; [done|].
    destruct (IH Hin) as (x & y & -> & Hx). exists (String d x), y.
    split; [done|]. apply not_elem_of_cons. split; [congruence|done].
Qed.

Lemma py_index_cons0 {A : Type} (x : A) (l : list A) : py_index (x :: l) 0 = inr x.
Proof. done. Qed.

Lemma py_index_cons1 {A : Type} (x y : A) (l : list A) : py_index (x :: y :: l) 1 = inr y.
Proof. done. Qed.

Lemma str_app_nil_l (s : string) : "" +:+ s = s.
Proof. done. Qed.

Lemma py_split_head (c : ascii) (s : string) : exists z r, py_split_go c "" s = z :: r.
Proof.
  destruct (py_split_go c "" s) as [|z r] eqn:H; [by apply py_split_go_nonempty in H|].
  by exists z, r.
Qed.

(** The output name of a structure in [generate_topology]: the lookup
    fails, with [IndexError], exactly when the input path has no ["/"],
    and it raises nothing else. *)
Theorem topology_output_name_error (input_strc : string) :
  (topology_output_name input_strc = inl PyIndexError <->
   "/"%char ∉ String.list_ascii_of_string input_strc) /\
  (forall e, topology_output_name input_strc = inl e -> e = PyIndexError).
Proof.
  unfold topology_output_name, py_split.
  destruct (decide ("/"%char ∈ String.list_ascii_of_string input_strc)) as [Hin|Hn].
  - destruct (string_first_occurrence _ _ Hin) as (x & y & -> & Hx).
    rewrite py_split_go_sep by done.
    destruct (py_split_head "/" y) as (second & r & ->).
    rewrite py_index_cons1, py_bind_inr.
    destruct (py_split_head "." second) as (z & r' & ->).
    rewrite py_index_cons0. split; [split; [done|by intros []]|done].
  - rewrite py_split_go_nosep by done. unfold py_index. cbn [lookup list_lookup].
    split; [done|]. intros e He. by injection He.
Qed.

(** The name is the second component of the path up to its first ["."]:
    for [a/b...] with no ["/"] in [a] and where [b] has no ["/"] or ["."]
    and is followed by the end, a ["/"] or a ["."], the name is [b]; so
    ["begin/mol1_1.pdb"] gives ["mol1_1"] and a deeper path
    ["data/begin/mol1_1.pdb"] gives the directory ["begin"]. *)
Theorem topology_output_name_spec (a b rest : string) :
  "/"%char ∉ String.list_ascii_of_string a ->
  "/"%char ∉ String.list_ascii_of_string b ->
  "."%char ∉ String.list_ascii_of_string b ->
  (rest = "" \/ (exists r, rest = String "/" r) \/ (exists r, rest = String "." r)) ->
  topology_output_name (a +:+ String "/" (b +:+ rest)) = inr b.
Proof.
  intros Ha Hb Hbd Hrest. unfold topology_output_name, py_split.
  rewrite py_split_go_sep by done.
  destruct Hrest as [->|[[r ->]|[r ->]]].
  - rewrite str_app_nil_r, (py_split_go_nosep "/" "" b) by done.
    rewrite py_index_cons1, py_bind_inr, str_app_nil_l.
    by rewrite (py_split_go_nosep "." "" b), py_index_cons0.
  - rewrite (py_split_go_sep "/" "" b r) by done.
    rewrite py_index_cons1, py_bind_inr, str_app_nil_l.
    by rewrite (py_split_go_nosep "." "" b), py_index_cons0.
  - destruct (decide ("/"%char ∈ String.list_ascii_of_string r)) as [Hr|Hr].
    + destruct (string_first_occurrence _ _ Hr) as (x & y & -> & Hx).
      replace (b +:+ String "." (x +:+ String "/" y)) with ((b +:+ String "." x) +:+ String "/" y)
        by (rewrite str_app_assoc; done).
      rewrite (py_split_go_sep "/" "" (b +:+ String "." x) y).
      * rewrite py_index_cons1, py_bind_inr, str_app_nil_l.
        by rewrite (py_split_go_sep "." "" b x), py_index_cons0.
      * rewrite list_ascii_of_string_app, elem_of_app. intros [?|Hin]; [done|].
        apply elem_of_cons in Hin as [?|?]; done.
    + rewrite (py_split_go_nosep "/" "" (b +:+ String "." r)).
      * rewrite py_index_cons1, py_bind_inr, str_app_nil_l.
        by rewrite (py_split_go_sep "." "" b r), py_index_cons0.
      * rewrite list_ascii_of_string_app, elem_of_app. intros [?|Hin]; [done|].
        apply elem_of_cons in Hin as [?|?]; done.
Qed.

End RunHaddockProofs.

Module Yaml2CfgMoreExamples.
Import Yaml2Cfg PyLib Yaml2CfgMore ExtraExamples Yaml2CfgMoreProofs.

Definition ex_param_sampling : list (string * YVal) :=
  [("default", YInt 1000); ("explevel", YStr "easy"); ("type", YStr "integer");
   ("title", YStr "Models")].

Definition ex_param_tolerance : list (string * YVal) :=
  [("default", YInt 5); ("explevel", YStr "expert"); ("type", YStr "integer")].

Lemma yaml2cfg_text_unknown_level_witness :
  ("novice" ∉ app config_expert_levels ["all"; _hidden_level]) /\
  _yaml2cfg_text [("sampling", YMap ex_param_sampling)] None "novice" false = inl PyKeyError /\
  yaml2cfg_text [("sampling", YMap ex_param_sampling)] None "novice" false = inl PyKeyError.
Proof.
  assert (Hn : "novice" ∉ app config_expert_levels ["all"; _hidden_level])
    by (apply (bool_decide_unpack _); vm_compute; exact I).
  split; [exact Hn|]. exact (yaml2cfg_text_unknown_level _ None "novice" false Hn).
Defined.

Lemma yaml2cfg_text_omits_higher_level_witness :
  _yaml2cfg_text (app [("sampling", YMap ex_param_sampling)] (("tolerance", YMap ex_param_tolerance) :: []))
    (Some "rigidbody") "easy" false
  = _yaml2cfg_text (app [("sampling", YMap ex_param_sampling)] []) (Some "rigidbody") "easy" false.
Proof.
  apply (yaml2cfg_text_omits_higher_level [("sampling", YMap ex_param_sampling)] [] "tolerance"
           ex_param_tolerance (YInt 5) (YStr "expert") 1 0); [vm_compute; reflexivity..|lia].
Defined.

Lemma yaml2cfg_text_shows_param_witness :
  exists j lv i, exp_levels !! "easy" = Some j /\ assoc_lookup "explevel" ex_param_sampling = Some lv /\
    level_index lv = inr i /\
    (i <= j -> (exists ty, assoc_lookup "type" ex_param_sampling = Some ty) /\
       exists a b, "sampling = 1000  # $title Models" =
         a +:+ param_line "sampling" (YInt 1000) (param_comments (undesired false) ex_param_sampling) +:+ b).
Proof.
  apply (yaml2cfg_text_shows_param [("sampling", YMap ex_param_sampling); ("tolerance", YMap ex_param_tolerance)]
           (Some "rigidbody") "easy" false "sampling = 1000  # $title Models" "sampling" ex_param_sampling (YInt 1000)).
  - vm_compute. reflexivity.
  - by apply elem_of_cons; left.
  - vm_compute. reflexivity.
Defined.

Definition ex_incompat_config : list (string * YVal) :=
  [("flexref", YMap [("incompatible", YMap [("mode", YStr "fast")]); ("tolerance", YInt 5)]);
   ("emref", YMap [("tolerance", YInt 5)]);
   ("note", YStr "compatible with all");
   ("tags", YList [YStr "refinement"])].

Lemma find_incompatible_parameters_result_witness :
  find_incompatible_parameters ex_incompat_config =
    inr [("flexref", YMap [("mode", YStr "fast")])].
Proof.
  rewrite (find_incompatible_parameters_result ex_incompat_config).
  - reflexivity.
  - apply (bool_decide_unpack _). vm_compute. exact I.
  - repeat constructor.
    intros Hx. apply list_elem_of_singleton in Hx. discriminate.
Defined.

Lemma yaml2cfg_text_all_levels_witness :
  _yaml2cfg_text (app [("sampling", YMap ex_param_sampling)]
                   (("debug", YMap [("default", YBool false); ("explevel", YStr "hidden");
                                    ("type", YStr "boolean")]) :: []))
    None "all" true
  = _yaml2cfg_text (app [("sampling", YMap ex_param_sampling)] []) None "all" true /\
  exists a b,
    match _yaml2cfg_text [("sampling", YMap ex_param_sampling); ("tolerance", YMap ex_param_tolerance)]
            None "all" true with inr t => t | inl _ => "" end =
    a +:+ param_line "sampling" (YInt 1000) (param_comments (undesired true) ex_param_sampling) +:+ b.
Proof.
  assert (Hnd : NoDup (app config_expert_levels ["all"; _hidden_level])).
  { apply (bool_decide_unpack _). vm_compute. exact I. }
  assert (Hin : "easy" ∈ app config_expert_levels ["all"]).
  { apply (bool_decide_unpack _). vm_compute. exact I. }
  split.
  - destruct (yaml2cfg_text_all_levels "debug"
      [("default", YBool false); ("explevel", YStr "hidden"); ("type", YStr "boolean")]
      (YBool false) "hidden" None true Hnd eq_refl eq_refl) as [H _].
    by apply H.
  - destruct (yaml2cfg_text_all_levels "sampling" ex_param_sampling (YInt 1000) "easy"
      None true Hnd eq_refl eq_refl) as [_ H].
    apply (H Hin [("sampling", YMap ex_param_sampling); ("tolerance", YMap ex_param_tolerance)]).
    + vm_compute. reflexivity.
    + by apply elem_of_cons; left.
Defined.

End Yaml2CfgMoreExamples.

Module BuildDefaultsRstProofs.
Import Yaml2Cfg PyLib BuildDefaultsRst PyLibProofs.

Section Rst.
Context {PF : PyFormat}.

Lemma params_loop_app (idx : nat) (a b : list (string * YVal))
    (acc : list string * list string * list string) :
  params_loop idx (app a b) acc = params_loop idx a acc ≫= params_loop idx b.
Proof.
  revert acc. induction a as [|[n v] a IH]; intros acc; [done|].
  cbn [List.app params_loop]. unfold mbind, py_bind.
  repeat match goal with
  | |- context [match ?m with _ => _ end] =>
      lazymatch m with context [params_loop] => fail | _ => destruct m end
  end; rewrite ?IH; done.
Qed.

Lemma do_text_ok (name : string) (param : list (string * YVal)) (level : string) :
  (exists t, do_text name param level = inr t) <->
  Forall (fun k => is_Some (assoc_lookup k param))
    ["default"; "type"; "title"; "short"; "long"; "explevel"].
Proof.
  rewrite !Forall_cons, Forall_nil. unfold do_text, getm.
  destruct (assoc_lookup "default" param), (assoc_lookup "type" param),
    (assoc_lookup "title" param), (assoc_lookup "short" param),
    (assoc_lookup "long" param), (assoc_lookup "explevel" param);
    cbn; naive_solver.
Qed.

Lemma params_loop_skip_hidden (idx : nat) (name : string) (l : list (string * YVal))
    (rest : list (string * YVal)) (acc : list string * list string * list string) :
  assoc_lookup "explevel" l = Some (YStr "hidden") ->
  idx < length title_headings ->
  (is_Some (assoc_lookup "default" l) ->
   Forall (fun k => is_Some (assoc_lookup k l))
     ["default"; "type"; "title"; "short"; "long"; "explevel"]) ->
  params_loop idx ((name, YMap l) :: rest) acc = params_loop idx rest acc.
Proof.
  intros Hlv Hidx Hkeys. cbn [params_loop].
  destruct (lookup_lt_is_Some_2 title_headings idx Hidx) as [cur Hcur].
  assert (Hc : heading_current idx = inr cur) by (unfold heading_current, py_index; by rewrite Hcur).
  assert (Hg : getm l "explevel" = inr (YStr "hidden")) by (unfold getm; by rewrite Hlv).
  destruct (assoc_lookup "default" l) eqn:Hd; rewrite Hg, py_bind_inr, Hc, py_bind_inr.
  - destruct (proj2 (do_text_ok name l cur) (Hkeys ltac:(done))) as [t Ht].
    rewrite Ht, py_bind_inr. reflexivity.
  - reflexivity.
Qed.

Lemma getm_inr_is_Some (l : list (string * YVal)) (k : string) (v : YVal) :
  getm l k = inr v -> is_Some (assoc_lookup k l).
Proof. unfold getm. destruct (assoc_lookup k l); [by eexists|done]. Qed.

Lemma level_of_known (lv : YVal) :
  level_of lv <> LOther -> lv ∈ [YStr "easy"; YStr "expert"; YStr "guru"; YStr "hidden"].
Proof.
  unfold level_of, yval_eq_str. destruct lv as [| s | | | |]; try done.
  repeat case_bool_decide; subst; intros Hk; try done; rewrite list_elem_of_In; simpl; tauto.
Qed.

Lemma level_of_hidden (lv : YVal) : level_of lv = LHidden <-> lv = YStr "hidden".
Proof.
  unfold level_of, yval_eq_str. split; [|by intros ->].
  destruct lv as [| s | | | |]; try done. repeat case_bool_decide; subst; done.
Qed.

Lemma sub_texts_ok (idx : nat) (name : string) (items : list (string * YVal)) (ts : list string) :
  sub_texts idx name items = inr ts ->
  forall name2 l2, (name2, YMap l2) ∈ items ->
  Forall (fun k => is_Some (assoc_lookup k l2))
    ["default"; "type"; "title"; "short"; "long"; "explevel"].
Proof.
  revert ts. induction items as [|[n v] rest IH]; intros ts H name2 l2 Hin.
  { by apply elem_of_nil in Hin. }
  cbn [sub_texts] in H. destruct v as [l0| | | | |];
    try (apply elem_of_cons in Hin as [Heq|Hin]; [discriminate|by eapply IH]).
  apply py_bind_inr_inv in H as (lvl & _ & H).
  apply py_bind_inr_inv in H as (t & Ht & H).
  apply py_bind_inr_inv in H as (ts' & Hts' & _).
  apply elem_of_cons in Hin as [Heq|Hin].
  - injection Heq as Hn Hl. subst n l0. apply (do_text_ok (name +:+ "." +:+ name2) l2 lvl). by exists t.
  - by eapply IH.
Qed.

Lemma params_loop_ok (idx : nat) (items : list (string * YVal))
    (acc r : list string * list string * list string) :
  params_loop idx items acc = inr r ->
  forall name v, (name, v) ∈ items ->
  exists l lv, v = YMap l /\ assoc_lookup "explevel" l = Some lv /\
    lv ∈ [YStr "easy"; YStr "expert"; YStr "guru"; YStr "hidden"] /\
    (is_Some (assoc_lookup "default" l) ->
     Forall (fun k => is_Some (assoc_lookup k l))
       ["default"; "type"; "title"; "short"; "long"; "explevel"]) /\
    (assoc_lookup "default" l = None -> lv <> YStr "hidden" ->
     Forall (fun k => is_Some (assoc_lookup k l)) ["title"; "short"; "long"; "group"] /\
     forall name2 l2, (name2, YMap l2) ∈ l ->
     Forall (fun k => is_Some (assoc_lookup k l2))
       ["default"; "type"; "title"; "short"; "long"; "explevel"]).
Proof.
  revert acc. induction items as [|[n v] rest IH]; intros acc H name v' Hin.
  { by apply elem_of_nil in Hin. }
  cbn [params_loop] in H.
  destruct v as [l| | | | |]; try discriminate.
  destruct (assoc_lookup "default" l) as [d|] eqn:Hd.
  - apply py_bind_inr_inv in H as (lv & Hlv & H).
    apply py_bind_inr_inv in H as (cur & _ & H).
    apply py_bind_inr_inv in H as (t & Ht & H).
    unfold getm in Hlv. destruct (assoc_lookup "explevel" l) as [lv'|] eqn:Hlv'; [|done].
    injection Hlv as ->.
    destruct (level_of lv) eqn:Hk; try discriminate;
    (apply elem_of_cons in Hin as [Heq|Hin]; [|by eapply IH]);
    injection Heq as Hn Hv; subst n v'; exists l, lv;
    (split; [done|]; split; [done|]; split; [apply level_of_known; by rewrite Hk|]);
    (split; [intros _; apply (do_text_ok name l cur); by exists t|]); congruence.
  - apply py_bind_inr_inv in H as (lv & Hlv & H).
    apply py_bind_inr_inv in H as (cur & _ & H).
    unfold getm in Hlv. destruct (assoc_lookup "explevel" l) as [lv'|] eqn:Hlv'; [|done].
    injection Hlv as ->.
    destruct (level_of lv) eqn:Hk; try discriminate.
    4: { apply elem_of_cons in Hin as [Heq|Hin]; [|by eapply IH].
         injection Heq as Hn Hv; subst n v'. exists l, lv.
         split; [done|]; split; [done|]; split; [apply level_of_known; by rewrite Hk|].
         split; [by rewrite Hd; intros []|]. intros _ Hh. apply level_of_hidden in Hk. done. }
    all: apply py_bind_inr_inv in H as (title & Htitle & H);
      apply py_bind_inr_inv in H as (short & Hshort & H);
      apply py_bind_inr_inv in H as (long & Hlong & H);
      apply py_bind_inr_inv in H as (group & Hgroup & H);
      apply py_bind_inr_inv in H as (subs & Hsubs & H);
      (apply elem_of_cons in Hin as [Heq|Hin]; [|by eapply IH]);
      injection Heq as Hn Hv; subst n v'; exists l, lv;
      (split; [done|]; split; [done|]; split; [apply level_of_known; by rewrite Hk|]);
      (split; [by rewrite Hd; intros []|]); intros _ _;
      (split; [rewrite !Forall_cons, Forall_nil; split_and!;
               [eapply getm_inr_is_Some; eassumption..|done]|]);
      intros name2 l2 Hin2; eapply sub_texts_ok; [exact Hsubs|];
      by rewrite (sorted_by_key_perm l).
Qed.

(** When [build_rst] succeeds, every top-level entry of the module's
    parameters is a mapping with an [explevel] among ["easy"], ["expert"],
    ["guru"] and ["hidden"]; a parameter (an entry with a [default]) has
    every field [do_text] reads, hidden or not; a section that is not
    hidden has a [title], [short], [long] and [group], and each of its
    mapping sub-entries has every field [do_text] reads. *)
Theorem build_rst_valid (idx : nat) (cfg : list (string * YVal)) (text : string) :
  build_rst idx cfg = inr text ->
  forall name v, (name, v) ∈ cfg ->
  exists l lv, v = YMap l /\ assoc_lookup "explevel" l = Some lv /\
    lv ∈ [YStr "easy"; YStr "expert"; YStr "guru"; YStr "hidden"] /\
    (is_Some (assoc_lookup "default" l) ->
     Forall (fun k => is_Some (assoc_lookup k l))
       ["default"; "type"; "title"; "short"; "long"; "explevel"]) /\
    (assoc_lookup "default" l = None -> lv <> YStr "hidden" ->
     Forall (fun k => is_Some (assoc_lookup k l)) ["title"; "short"; "long"; "group"] /\
     forall name2 l2, (name2, YMap l2) ∈ l ->
     Forall (fun k => is_Some (assoc_lookup k l2))
       ["default"; "type"; "title"; "short"; "long"; "explevel"]).
Proof.
  intros H name v Hin. unfold build_rst in H.
  apply py_bind_inr_inv in H as (cur & _ & H).
  apply py_bind_inr_inv in H as (res & Hres & _).
  unfold loop_params in Hres. apply py_bind_inr_inv in Hres as (r & Hr & _).
  eapply params_loop_ok; [exact Hr|]. by rewrite (sorted_by_key_perm cfg).
Qed.

(** [do_text] succeeds exactly when the parameter has a [default], [type],
    [title], [short], [long] and [explevel]; [group] is optional. *)
Theorem do_text_fields (name : string) (param : list (string * YVal)) (level : string) :
  (exists t, do_text name param level = inr t) <->
  Forall (fun k => is_Some (assoc_lookup k param))
    ["default"; "type"; "title"; "short"; "long"; "explevel"].
Proof. apply do_text_ok. Qed.

(** The order of the parameters in the mapping does not matter: a
    permutation of the items, with unique names, gives the same text. *)
Theorem build_rst_perm (idx : nat) (cfg1 cfg2 : list (string * YVal)) :
  cfg1 ≡ₚ cfg2 -> NoDup cfg1.*1 -> build_rst idx cfg1 = build_rst idx cfg2.
Proof.
  intros Hp Hnd. unfold build_rst, loop_params. by rewrite (sorted_by_key_perm_eq cfg1 cfg2 Hp Hnd).
Qed.

(** A parameter or section at the ["hidden"] expert level does not show in
    the text: with unique names, dropping it gives the same result, provided
    the reads made before it is skipped succeed (the heading below the
    current one exists and a parameter has the fields [do_text] reads). *)
Theorem build_rst_hidden_omitted (idx : nat) (pre post : list (string * YVal)) (name : string)
    (l : list (string * YVal)) :
  NoDup (app pre ((name, YMap l) :: post)).*1 ->
  assoc_lookup "explevel" l = Some (YStr "hidden") ->
  S idx < length title_headings ->
  (is_Some (assoc_lookup "default" l) ->
   Forall (fun k => is_Some (assoc_lookup k l))
     ["default"; "type"; "title"; "short"; "long"; "explevel"]) ->
  build_rst idx (app pre ((name, YMap l) :: post)) = build_rst idx (app pre post).
Proof.
  intros Hnd Hlv Hidx Hkeys. unfold build_rst, loop_params.
  rewrite (sorted_by_key_perm_eq (app pre ((name, YMap l) :: post)) ((name, YMap l) :: app pre post));
    [|by rewrite <- Permutation_middle|done].
  unfold sorted_by_key at 1. cbn [foldr]. fold (sorted_by_key (app pre post)).
  destruct (sort_insert_split (name, YMap l) (sorted_by_key (app pre post))) as (a & b & -> & ->).
  destruct (heading_current idx) as [e|cur]; [done|]. rewrite !py_bind_inr.
  rewrite !params_loop_app.
  destruct (params_loop (S idx) a _) as [e|acc]; [done|]. rewrite !py_bind_inr.
  by rewrite params_loop_skip_hidden.
Qed.

End Rst.
Lemma concat_empty_cons (x : string) (l : list string) :
  String.concat "" (x :: l) = x +:+ String.concat "" l.
Proof. destruct l as [|y l]; [by rewrite str_app_nil_r|done]. Qed.

Lemma split_lines_go_concat (cur s : string) :
  String.concat "" (split_lines_go cur s) = cur +:+ s.
Proof.
  revert cur. induction s as [|c s IH]; intros cur; cbn [split_lines_go].
  - case_bool_decide; subst; [done|]. by rewrite str_app_nil_r.
  - case_bool_decide.
    + rewrite concat_empty_cons, IH, str_app_assoc. done.
    + rewrite IH, str_app_assoc. done.
Qed.

Lemma split_lines_go_first (cur s : string) :
  Ascii.ascii_of_nat 10 ∉ String.list_ascii_of_string cur -> cur +:+ s <> "" ->
  exists first tl, split_lines_go cur s = first :: tl /\
    ((exists a, first = a +:+ linesep /\ Ascii.ascii_of_nat 10 ∉ String.list_ascii_of_string a) \/
     (tl = [] /\ Ascii.ascii_of_nat 10 ∉ String.list_ascii_of_string first)).
Proof.
  revert cur. induction s as [|c s IH]; intros cur Hcur Hne; cbn [split_lines_go].
  - rewrite str_app_nil_r in Hne. case_bool_decide; [done|]. exists cur, []. by split; [|right].
  - case_bool_decide as Hc.
    + subst c. eexists _, _. split; [done|]. left. by exists cur.
    + apply IH; [|by destruct cur].
      rewrite list_ascii_of_string_app, elem_of_app. intros [Hin|Hin]; [done|].
      apply list_elem_of_singleton in Hin. by subst.
Qed.

Lemma universal_newlines_nonempty (c : string) : c <> "" -> universal_newlines c <> "".
Proof.
  destruct c as [|x c]; [done|]. intros _. cbn [universal_newlines].
  case_bool_decide; [|done]. destruct c as [|y c]; [done|]. by case_bool_decide.
Qed.

(** [change_title] on a missing file, or on one that is not well-formed
    UTF-8, raises and writes nothing; on an empty file it writes an empty
    file; otherwise the file becomes the
    title and a newline followed by everything after its first line (with
    newlines normalised as text mode reads them): the first line ends at
    its first newline, or is the whole text when it has none. Other files
    are untouched. *)
Theorem change_title_spec (rst_file : path) (title : string) (fs : FS) :
  (fs !! rst_file = None -> change_title rst_file title fs = None) /\
  (forall c, fs !! rst_file = Some c -> utf8_valid c = false -> change_title rst_file title fs = None) /\
  (fs !! rst_file = Some "" -> change_title rst_file title fs = Some (<[rst_file := ""]> fs)) /\
  (forall c, fs !! rst_file = Some c -> utf8_valid c = true -> c <> "" ->
   exists first rest,
     universal_newlines c = first +:+ rest /\
     ((exists a, first = a +:+ linesep /\ Ascii.ascii_of_nat 10 ∉ String.list_ascii_of_string a) \/
      (rest = "" /\ Ascii.ascii_of_nat 10 ∉ String.list_ascii_of_string first)) /\
     change_title rst_file title fs = Some (<[rst_file := title +:+ linesep +:+ rest]> fs)).
Proof.
  unfold change_title. split; [by intros ->|].
  split; [intros c Hc Hv; by rewrite Hc, Hv|]. split; [by intros ->|].
  intros c Hc Hv Hne. rewrite Hc, Hv. unfold readlines.
  destruct (split_lines_go_first "" (universal_newlines c)) as (first & tl & Hsplit & Hfirst);
    [by apply not_elem_of_nil|by apply universal_newlines_nonempty|].
  exists first, (String.concat "" tl).
  split; [|split].
  - change (universal_newlines c) with ("" +:+ universal_newlines c) at 1.
    rewrite <- (split_lines_go_concat "" (universal_newlines c)), Hsplit. apply concat_empty_cons.
  - destruct Hfirst as [Hf|[-> Hf]]; [by left|by right].
  - rewrite Hsplit, imap_cons, bool_decide_eq_true_2 by done.
    rewrite (imap_ext _ (const id)), imap_const, list_fmap_id.
    + by rewrite concat_empty_cons, str_app_assoc.
    + intros i x _. cbn. repeat case_bool_decide; done.
Qed.

End BuildDefaultsRstProofs.

Module BuildDefaultsRstExamples.
Import Yaml2Cfg PyLib BuildDefaultsRst ExtraExamples BuildDefaultsRstProofs.

Definition ex_tolerance : list (string * YVal) :=
  [("default", YInt 5); ("type", YStr "integer"); ("title", YStr "Tolerance");
   ("short", YStr "Allowed failures"); ("long", YStr "Percentage of allowed failures");
   ("explevel", YStr "expert")].

Definition ex_sampling : list (string * YVal) :=
  [("default", YInt 1000); ("type", YStr "integer"); ("title", YStr "Sampling");
   ("short", YStr "Models"); ("long", YStr "Number of models"); ("explevel", YStr "easy");
   ("group", YStr "sampling")].

Definition ex_debug : list (string * YVal) :=
  [("default", YBool true); ("type", YStr "boolean"); ("title", YStr "Debug");
   ("short", YStr "Debug"); ("long", YStr "Debug mode"); ("explevel", YStr "hidden")].

Definition ex_rst_cfg : list (string * YVal) :=
  [("tolerance", YMap ex_tolerance); ("sampling", YMap ex_sampling); ("debug", YMap ex_debug)].

Lemma build_rst_valid_witness :
  exists l lv, YMap ex_tolerance = YMap l /\ assoc_lookup "explevel" l = Some lv /\
    lv ∈ [YStr "easy"; YStr "expert"; YStr "guru"; YStr "hidden"] /\
    (is_Some (assoc_lookup "default" l) ->
     Forall (fun k => is_Some (assoc_lookup k l))
       ["default"; "type"; "title"; "short"; "long"; "explevel"]) /\
    (assoc_lookup "default" l = None -> lv <> YStr "hidden" ->
     Forall (fun k => is_Some (assoc_lookup k l)) ["title"; "short"; "long"; "group"] /\
     forall name2 l2, (name2, YMap l2) ∈ l ->
     Forall (fun k => is_Some (assoc_lookup k l2))
       ["default"; "type"; "title"; "short"; "long"; "explevel"]).
Proof.
  apply (build_rst_valid 0 ex_rst_cfg
           (match build_rst 0 ex_rst_cfg with inr t => t | inl _ => "" end)
           ltac:(vm_compute; reflexivity) "tolerance").
  by apply elem_of_cons; left.
Defined.

Lemma build_rst_perm_witness :
  build_rst 0 [("tolerance", YMap ex_tolerance); ("sampling", YMap ex_sampling)]
  = build_rst 0 [("sampling", YMap ex_sampling); ("tolerance", YMap ex_tolerance)].
Proof.
  apply build_rst_perm.
  - apply Permutation_swap.
  - apply (bool_decide_unpack _). vm_compute. exact I.
Defined.

Lemma build_rst_hidden_omitted_witness :
  build_rst 0 (app [("tolerance", YMap ex_tolerance)] (("debug", YMap ex_debug) :: [("sampling", YMap ex_sampling)]))
  = build_rst 0 (app [("tolerance", YMap ex_tolerance)] [("sampling", YMap ex_sampling)]).
Proof.
  apply build_rst_hidden_omitted.
  - apply (bool_decide_unpack _). vm_compute. exact I.
  - reflexivity.
  - vm_compute. lia.
  - intros _. repeat constructor; vm_compute; eexists; reflexivity.
Defined.

Lemma change_title_spec_witness :
  (exists first rest,
    universal_newlines ("Old title" +:+ String (Ascii.ascii_of_nat 13) linesep +:+ "body" +:+ linesep)
      = first +:+ rest /\
    ((exists a, first = a +:+ linesep /\ Ascii.ascii_of_nat 10 ∉ String.list_ascii_of_string a) \/
     (rest = "" /\ Ascii.ascii_of_nat 10 ∉ String.list_ascii_of_string first)) /\
    change_title ["docs"; "index.rst"] "New title"
      {[ ["docs"; "index.rst"] := "Old title" +:+ String (Ascii.ascii_of_nat 13) linesep +:+ "body" +:+ linesep ]}
    = Some (<[["docs"; "index.rst"] := "New title" +:+ linesep +:+ rest]>
        ({[ ["docs"; "index.rst"] := "Old title" +:+ String (Ascii.ascii_of_nat 13) linesep +:+ "body" +:+ linesep ]} : FS))) /\
  change_title ["docs"; "index.rst"] "New title"
    {[ ["docs"; "index.rst"] := "Old " +:+ String (Ascii.ascii_of_nat 255) linesep ]} = None.
Proof.
  split.
  - destruct (change_title_spec ["docs"; "index.rst"] "New title"
      {[ ["docs"; "index.rst"] := "Old title" +:+ String (Ascii.ascii_of_nat 13) linesep +:+ "body" +:+ linesep ]})
      as (_ & _ & _ & H).
    apply H.
    + by rewrite lookup_singleton_eq.
    + vm_compute. reflexivity.
    + vm_compute. discriminate.
  - destruct (change_title_spec ["docs"; "index.rst"] "New title"
      {[ ["docs"; "index.rst"] := "Old " +:+ String (Ascii.ascii_of_nat 255) linesep ]})
      as (_ & H & _).
    apply (H ("Old " +:+ String (Ascii.ascii_of_nat 255) linesep)).
    + by rewrite lookup_singleton_eq.
    + vm_compute. reflexivity.
Defined.

End BuildDefaultsRstExamples.

Module RunHaddockExamples.
Import PyLib RunHaddock ExtraExamples RunHaddockProofs.

Lemma stage_outcome_by_recipe_name_witness :
  snd <$> run_it0 "default.cns" [("mol1", ["begin/mol1_1.pdb"])] =
    inr (StageDone ["mol1_it0.pdb"]) /\
  snd <$> run_it1 "default.cns" ["complex_1"] = inr (StageDone ["complex_1_it1"]) /\
  snd <$> run_itw "default.cns" ["complex_1"] = inr (StageDone ["complex_1_itw"]).
Proof.
  destruct (stage_outcome_by_recipe_name "default.cns" [("mol1", ["begin/mol1_1.pdb"])]
              ["complex_1"] ["complex_1"]) as (H0 & H1 & H2); [discriminate|].
  split_and!; [rewrite H0|rewrite H1|rewrite H2]; reflexivity.
Defined.

Lemma topology_output_name_spec_witness :
  topology_output_name "begin/mol1_1.pdb" = inr "mol1_1" /\
  topology_output_name "data/begin/mol1_1.pdb" = inr "begin".
Proof.
  split.
  - apply (topology_output_name_spec "begin" "mol1_1" ".pdb");
      [apply (bool_decide_unpack _); vm_compute; exact I..|right; right; by exists "pdb"].
  - apply (topology_output_name_spec "data" "begin" "/mol1_1.pdb");
      [apply (bool_decide_unpack _); vm_compute; exact I..|right; left; by exists "mol1_1.pdb"].
Defined.

End RunHaddockExamples.
